(** * Brion compartment report converter

    A shallow embedding of [apps/compartmentConverter.cpp] (function [main])
    together with the layout types of [brion/types.h].

    - C++ [float] is IEEE-754 binary32, modelled with the Standard Library's
      executable specification of floating point arithmetic ([SpecFloat]) at
      precision 24 and maximal exponent 128; every operation rounds to
      nearest-even and no product and sum are fused.
    - [size_t], [uint64_t] and [int] are integers of [Z] with their
      conversions written out.
    - The report writer [to] and the MPI library are external: what [main]
      does to them is recorded as a trace of calls, what they deliver to
      [main] is read from a [World].
    - Undefined behaviour of the C++ code (indexing a vector out of range,
      dereferencing an empty frame pointer, converting a [float] that does
      not fit) ends a run with the outcome [Undefined]. *)

From Stdlib Require Import ZArith SpecFloat.
From stdpp Require Import base option list strings gmap.

Open Scope Z_scope.

(** ** Machine integers *)

Module Machine.

(** Conversion to a 64 bit unsigned integer ([size_t], [uint64_t]). *)
Definition to_size_t (z : Z) : Z := z mod 2 ^ 64.

(** Conversion to [int] (32 bit, two's complement). *)
Definition to_int (z : Z) : Z := (z + 2 ^ 31) mod 2 ^ 32 - 2 ^ 31.

(** [std::numeric_limits< size_t >::max()], also the [uint64_t] maximum
    that marks a section without compartments in [SectionOffsets]. *)
Definition size_t_max : Z := 2 ^ 64 - 1.

End Machine.

(** ** Single precision floating point *)

Module Float32.

Definition prec : Z := 24.
Definition emax : Z := 128.

Definition float : Type := spec_float.

Definition add : float → float → float := SFadd prec emax.
Definition sub : float → float → float := SFsub prec emax.
Definition mul : float → float → float := SFmul prec emax.
Definition div : float → float → float := SFdiv prec emax.

(** [a < b], [a == b] and [a != b] of C++. *)
Definition ltb : float → float → bool := SFltb.
Definition eqb : float → float → bool := SFeqb.
Definition neqb (a b : float) : bool := negb (eqb a b).

(** Conversion of an integer to [float], rounding to nearest-even. *)
Definition of_Z (z : Z) : float := binary_normalize prec emax z 0 false.

(** Truncation towards zero; infinities and NaN have no integer part. *)
Definition trunc (x : float) : option Z :=
  match x with
  | S754_zero _ => Some 0
  | S754_finite s m e =>
      let a := if 0 <=? e then Z.pos m * 2 ^ e else Z.pos m / 2 ^ (- e) in
      Some (if s then - a else a)
  | S754_infinity _ | S754_nan => None
  end.

(** Conversion of a [float] to [size_t]: defined only when the truncated
    value is representable. *)
Definition to_size_t (x : float) : option Z :=
  z ← trunc x;
  if bool_decide (0 ≤ z ≤ Machine.size_t_max) then Some z else None.

(** [std::min( a, b )] is [(b < a) ? b : a]. *)
Definition min (a b : float) : float := if ltb b a then b else a.

(** A value of the format: canonical mantissa and exponent in range. *)
Definition valid (x : float) : bool := valid_binary prec emax x.

End Float32.

Abbreviation float := Float32.float.

(** ** Data model ([brion/types.h] and the reader interface) *)

(** [brion::floats] *)
Abbreviation floats := (list float).
(** [brion::GIDSet], a [std::set< uint32_t >], in iteration order. *)
Abbreviation GIDSet := (list Z).
(** [brion::uint64_ts], [brion::uint16_ts] *)
Abbreviation uint64_ts := (list Z).
Abbreviation uint16_ts := (list Z).
(** [brion::SectionOffsets], [brion::CompartmentCounts] *)
Abbreviation SectionOffsets := (list (list Z)).
Abbreviation CompartmentCounts := (list (list Z)).

(** A [brion::CompartmentReport] opened for reading: the values its
    accessors return. [loadFrame] returns an empty pointer where the report
    has no frame. *)
Record CompartmentReport := {
  getStartTime : float;
  getEndTime : float;
  getTimestep : float;
  getDataUnit : string;
  getTimeUnit : string;
  getGIDs : GIDSet;
  getOffsets : SectionOffsets;
  getCompartmentCounts : CompartmentCounts;
  getFrameSize : Z;
  loadFrame : float → option floats;
}.

(** The command line after [po::store] and [po::notify] succeeded. *)
Record Options := {
  opt_help : bool;
  opt_version : bool;
  opt_input : string;
  opt_output : option string;
  opt_maxFrames : option Z;
  opt_compare : bool;
  opt_dump : bool;
}.

(** ** MPI *)

Inductive RequestTag := TAG_FRAME | TAG_FRAME_DONE.

Record MPI_Status := { MPI_SOURCE : Z; MPI_TAG : RequestTag }.

(** The handle of a non-blocking send: what was sent to whom. *)
Record MPI_Request := { req_payload : Z; req_dest : Z; req_tag : RequestTag }.

(** A default-constructed handle, as [requests[frame]] creates for a key
    that is not in the map. *)
Definition null_request : MPI_Request :=
  {| req_payload := 0; req_dest := 0; req_tag := TAG_FRAME |}.

(** [std::map< int, MPI_Request >] *)
Abbreviation Requests := (gmap Z MPI_Request).

(** Everything a rank gets from outside [main]. The frame loop of [main] uses
    [frame] and [framesDone], which are declared under [LUNCHBOX_USE_MPI]
    only: the converter is the MPI build.
    - [getRank], [getSize]: rank and world size.
    - [MPI_Wait_status]: the status [MPI_Wait( &request, &status )] leaves in
      [status] for a send handle, given the status it found there.
    - [probes]: for each [MPI_Iprobe] of the coordinator in turn, [None] when
      no completion is pending, otherwise the frame and the source that the
      following [MPI_Recv] delivers.
    - [inbox]: the [TAG_FRAME] payloads that the [MPI_Recv] calls of a worker
      deliver, in order; a worker whose inbox is used up blocks. *)
Record World := {
  getRank : Z;
  getSize : Z;
  MPI_Wait_status : MPI_Request → MPI_Status → MPI_Status;
  probes : list (option (Z * Z));
  inbox : list Z;
}.

(** ** Calls on the writer and on MPI, and runs of [main] *)

Inductive Call :=
| writeHeader (start end_ step : float) (dataUnit timeUnit : string)
| addGID (gid : Z)
| writeCompartments (gid : Z) (counts : uint16_ts)
| writeFrame (gid : Z) (cellVoltages : floats) (t : float)
| flush
| MPI_Isend (payload dest : Z) (tag : RequestTag).

Definition EXIT_SUCCESS : Z := 0.
Definition EXIT_FAILURE : Z := 1.

Inductive Outcome :=
| Exit (code : Z)   (* [return code] or [::exit( code )] *)
| Undefined         (* undefined behaviour *)
| Blocked           (* a receive that is never matched *)
| OutOfFuel.        (* the loop over timestamps needs more steps *)

Inductive Step (A : Type) :=
| Stop (o : Outcome)
| Next (a : A).
Arguments Stop {A} o.
Arguments Next {A} a.

(** A piece of [main]: it extends the trace of calls made so far and either
    ends the run or goes on with a value. *)
Definition Run (A : Type) : Type := list Call → Step A * list Call.

#[global] Instance Run_ret : MRet Run := λ A a tr, (Next a, tr).
#[global] Instance Run_bind : MBind Run := λ A B f m tr,
  match m tr with
  | (Stop o, tr') => (Stop o, tr')
  | (Next a, tr') => f a tr'
  end.

Definition call (c : Call) : Run unit := λ tr, (Next (), tr ++ [c]).
Definition stop {A} (o : Outcome) : Run A := λ tr, (Stop o, tr).
Definition defined {A} (x : option A) : Run A :=
  match x with
  | Some a => mret a
  | None => stop Undefined
  end.
Definition when (b : bool) (m : Run unit) : Run unit := if b then m else mret ().

(** [REQUIRE( a )] and [REQUIRE_EQUAL( a, b )], the latter with [a != b]
    already evaluated. *)
Definition REQUIRE (a : bool) : Run unit :=
  if a then mret () else stop (Exit EXIT_FAILURE).
Definition REQUIRE_EQUAL (differ : bool) : Run unit :=
  if differ then stop (Exit EXIT_FAILURE) else mret ().

(** ** Time range and frame count *)

(** [--maxFrames], unlimited when absent. *)
Definition maxFrames (vm : Options) : Z :=
  default Machine.size_t_max (opt_maxFrames vm).

(** [start + maxFrames * step] *)
Definition maxEnd (start step : float) (maxFrames : Z) : float :=
  Float32.add start (Float32.mul (Float32.of_Z maxFrames) step).

(** [end] after [end = std::min( end, maxEnd )]. *)
Definition clamped_end (vm : Options) (in_ : CompartmentReport) : float :=
  Float32.min (getEndTime in_)
              (maxEnd (getStartTime in_) (getTimestep in_) (maxFrames vm)).

(** [const size_t nFrames = (end - start) / step] *)
Definition nFrames (start end_ step : float) : option Z :=
  Float32.to_size_t (Float32.div (Float32.sub end_ start) step).

(** ** Partition of the GIDs over the ranks *)

(** [float( gids.size( )) / float( nRanks )] *)
Definition range (nGIDs nRanks : Z) : float :=
  Float32.div (Float32.of_Z nGIDs) (Float32.of_Z nRanks).

(** [const size_t startGID = rank * range] *)
Definition startGID (rank : Z) (range : float) : option Z :=
  Float32.to_size_t (Float32.mul (Float32.of_Z rank) range).

(** [const size_t endGID = ( rank + 1 ) * range] *)
Definition endGID (rank : Z) (range : float) : option Z :=
  Float32.to_size_t
    (Float32.mul (Float32.of_Z (Machine.to_int (rank + 1))) range).

(** The loop over [gids] that declares or writes each neuron. *)
Fixpoint layout_loop (startGID endGID : Z) (counts : CompartmentCounts)
    (gids : GIDSet) (index : nat) : Run unit :=
  match gids with
  | [] => mret ()
  | gid :: gids' =>
      (if (Z.of_nat index <? startGID) || (Z.of_nat index >=? endGID)
       then call (addGID gid)
       else c ← defined (counts !! index); call (writeCompartments gid c));;
      layout_loop startGID endGID counts gids' (S index)
  end.

(** The block between [writeHeader] and the frame count. *)
Definition write_layout (rank nRanks : Z) (in_ : CompartmentReport) : Run unit :=
  let gids := getGIDs in_ in
  let range := range (Z.of_nat (length gids)) nRanks in
  startGID ← defined (startGID rank range);
  endGID ← defined (endGID rank range);
  layout_loop startGID endGID (getCompartmentCounts in_) gids 0.

(** ** The voltages of one neuron *)

(** [for( size_t k = 0; k < counts[index][j]; ++k )
        cellVoltages.push_back( voltages[ offsets[index][j]+k] );]
    with [n] iterations left. Besides the vector built so far the loop keeps
    a log of every index at which it reads [voltages]. *)
Fixpoint inner_loop (voltages : floats) (offset k : Z) (n : nat)
    (cellVoltages : floats) (log : list Z) : option floats * list Z :=
  match n with
  | O => (Some cellVoltages, log)
  | S n' =>
      let i := Machine.to_size_t (offset + k) in
      match voltages !! Z.to_nat i with
      | Some v =>
          inner_loop voltages offset (k + 1) n' (cellVoltages ++ [v]) (log ++ [i])
      | None => (None, log ++ [i])
      end
  end.

(** [for( size_t j = 0; j < offsets[index].size(); ++j )], over the offsets
    of the neuron that are left. *)
Fixpoint outer_loop (voltages : floats) (offsets_index : uint64_ts)
    (counts : CompartmentCounts) (index j : nat)
    (cellVoltages : floats) (log : list Z) : option floats * list Z :=
  match offsets_index with
  | [] => (Some cellVoltages, log)
  | offset :: rest =>
      match counts !! index ≫= (.!! j) with
      | None => (None, log)
      | Some count =>
          match inner_loop voltages offset 0 (Z.to_nat count) cellVoltages log with
          | (Some cellVoltages', log') =>
              outer_loop voltages rest counts index (S j) cellVoltages' log'
          | (None, log') => (None, log')
          end
      end
  end.

(** The vector [cellVoltages] of neuron [index] and the indices read. *)
Definition cellVoltages (voltages : floats) (offsets : SectionOffsets)
    (counts : CompartmentCounts) (index : nat) : option floats * list Z :=
  match offsets !! index with
  | Some offsets_index => outer_loop voltages offsets_index counts index 0 [] []
  | None => (None, [])
  end.

(** ** One frame *)

(** The loop over [gids] in the frame loop. *)
Fixpoint write_cells (in_ : CompartmentReport) (voltages : floats) (t : float)
    (gids : GIDSet) (index : nat) : Run unit :=
  match gids with
  | [] => mret ()
  | gid :: gids' =>
      cv ← defined (cellVoltages voltages (getOffsets in_)
                                 (getCompartmentCounts in_) index).1;
      call (writeFrame gid cv t);;
      write_cells in_ voltages t gids' (S index)
  end.

(** [const float t = start + frame * step] *)
Definition frame_time (in_ : CompartmentReport) (frame : Z) : float :=
  Float32.add (getStartTime in_)
              (Float32.mul (Float32.of_Z frame) (getTimestep in_)).

(** Loading and writing frame [frame]. *)
Definition process_frame (in_ : CompartmentReport) (frame : Z) : Run unit :=
  let t := frame_time in_ frame in
  voltages ← defined (loadFrame in_ t);
  write_cells in_ voltages t (getGIDs in_) 0.

(** ** Dispatch of frames *)

(** [const int preQueue = std::max( 2, int( nFrames>>9 ) )] *)
Definition preQueue (nFrames : Z) : Z :=
  Z.max 2 (Machine.to_int (nFrames ≫ 9)).

(** [const size_t startFrame = (nRanks-1) * preQueue], a product of [int]s
    converted to [size_t]. *)
Definition startFrame (nRanks nFrames : Z) : Z :=
  Machine.to_size_t (Machine.to_int ((nRanks - 1) * preQueue nFrames)).

(** [MPI_Isend( &payload, 1, MPI_INT, dest, TAG_FRAME, MPI_COMM_WORLD,
                &requests[key] )] *)
Definition send_frame (key payload dest : Z) (requests : Requests) : Run Requests :=
  call (MPI_Isend payload dest TAG_FRAME);;
  mret (<[key := {| req_payload := payload; req_dest := dest;
                    req_tag := TAG_FRAME |}]> requests).

Fixpoint send_frames (sends : list (Z * Z)) (requests : Requests) : Run Requests :=
  match sends with
  | [] => mret requests
  | (frame, dest) :: sends' =>
      requests' ← send_frame frame frame dest requests;
      send_frames sends' requests'
  end.

(** The frames rank 0 queues before the frame loop, with their receivers:
    [frame = (i-1) * preQueue + j] for [i] in [1, nRanks) and [j] in
    [0, preQueue). *)
Definition prequeued (nRanks preQueue : Z) : list (Z * Z) :=
  i ← seqZ 1 (nRanks - 1);
  j ← seqZ 0 preQueue;
  [(Machine.to_int ((i - 1) * preQueue + j), i)].

(** The stop frames: [frame = -i] to rank [i] in [1, nRanks). *)
Definition stop_frames (nRanks : Z) : list (Z * Z) :=
  (λ i, (- i, i)) <$> seqZ 1 (nRanks - 1).

(** The variables of the frame loop that the model follows, and what is
    left of the messages the world delivers. *)
Record LoopState := {
  requests : Requests;
  framesDone : Z;
  probes_left : list (option (Z * Z));
  inbox_left : list Z;
}.

Inductive Control := Continue | Break.

(** The branch [if( data )] of the coordinator at loop index [i]:
    [MPI_Recv] has delivered [frame] from [source] (both are in [frame] and
    [status]), then
    [MPI_Wait( &requests[frame], &status ); requests.erase( frame );
     MPI_Isend( &i, 1, MPI_INT, status.MPI_SOURCE, TAG_FRAME, MPI_COMM_WORLD,
                &requests[i] );] *)
Definition dispatch_next (w : World) (i frame source : Z) (requests : Requests)
    : Run Requests :=
  let status := {| MPI_SOURCE := source; MPI_TAG := TAG_FRAME_DONE |} in
  let status := MPI_Wait_status w (default null_request (requests !! frame)) status in
  let requests := delete frame requests in
  send_frame (Machine.to_int i) (Machine.to_int i) (MPI_SOURCE status) requests.

(** The loop body from [if( frame < 0 )] on. *)
Definition run_frame (w : World) (in_ : CompartmentReport) (frame : Z)
    (s : LoopState) : Run (Control * LoopState) :=
  if bool_decide (frame < 0) then mret (Break, s)
  else
    process_frame in_ frame;;
    when (negb (bool_decide (getRank w = 0)))
         (call (MPI_Isend frame 0 TAG_FRAME_DONE));;
    mret (Continue,
          {| requests := requests s; framesDone := framesDone s + 1;
             probes_left := probes_left s; inbox_left := inbox_left s |}).

(** The body of [for( size_t i = startFrame; i < nFrames; ++i )]. *)
Definition loop_body (w : World) (in_ : CompartmentReport) (i : Z)
    (s : LoopState) : Run (Control * LoopState) :=
  if bool_decide (getRank w = 0) then
    if bool_decide (getSize w > 1) then
      match probes_left s with
      | Some (frame, source) :: rest =>
          requests' ← dispatch_next w i frame source (requests s);
          mret (Continue,
                {| requests := requests'; framesDone := framesDone s;
                   probes_left := rest; inbox_left := inbox_left s |})
      | rest =>
          (* No worker idle, do it ourselves *)
          run_frame w in_ (Machine.to_int i)
            {| requests := requests s; framesDone := framesDone s;
               probes_left := tail rest; inbox_left := inbox_left s |}
      end
    else run_frame w in_ (Machine.to_int i) s
  else
    (* get frame to process *)
    match inbox_left s with
    | [] => stop Blocked
    | frame :: rest =>
        run_frame w in_ frame
          {| requests := requests s; framesDone := framesDone s;
             probes_left := probes_left s; inbox_left := rest |}
    end.

(** The frame loop with [n] indices left, the next one being [i]. *)
Fixpoint frame_loop (w : World) (in_ : CompartmentReport) (n : nat) (i : Z)
    (s : LoopState) : Run LoopState :=
  match n with
  | O => mret s
  | S n' =>
      '(c, s') ← loop_body w in_ i s;
      match c with
      | Break => mret s'
      | Continue => frame_loop w in_ n' (i + 1) s'
      end
  end.

(** From the queueing of work to [to.flush()]; the waits and the barrier
    that follow make no call the trace records. The result is
    [framesDone]. *)
Definition convert (w : World) (in_ : CompartmentReport) (nFrames : Z) : Run Z :=
  let rank := getRank w in
  let nRanks := getSize w in
  let startFrame := startFrame nRanks nFrames in
  queued ←
    (if bool_decide (rank = 0)
     then send_frames (prequeued nRanks (preQueue nFrames)) ∅
     else mret ∅);
  s ← frame_loop w in_ (Z.to_nat (nFrames - startFrame)) startFrame
        {| requests := queued; framesDone := 0;
           probes_left := probes w; inbox_left := inbox w |};
  (* send stop frame *)
  (if bool_decide (rank = 0)
   then send_frames (stop_frames nRanks) (requests s)
   else mret (requests s));;
  call flush;;
  mret (framesDone s).

(** ** Comparison of the written report with the input ([--compare]) *)

(** [requireEqualCollections( a, b )], given [!=] on the elements. *)
Fixpoint requireEqualCollections {A} (differ : A → A → bool) (a b : list A)
    : Run unit :=
  match a, b with
  | x :: a', y :: b' =>
      REQUIRE_EQUAL (differ x y);; requireEqualCollections differ a' b'
  | [], [] => mret ()
  | _, _ => stop (Exit EXIT_FAILURE)
  end.

Definition Z_differ (a b : Z) : bool := negb (a =? b).
Definition string_differ (a b : string) : bool := negb (String.eqb a b).

(** [for( size_t j = 0; j < offsets1[i].size(); ++j )
        REQUIRE( offsets1[i][j] < in.getFrameSize() ||
                 offsets1[i][j] == std::numeric_limits< uint64_t >::max( ));] *)
Fixpoint require_offsets_sane (frameSize : Z) (offsets1_i : uint64_ts) : Run unit :=
  match offsets1_i with
  | [] => mret ()
  | offset :: rest =>
      REQUIRE ((offset <? frameSize) || (offset =? Machine.size_t_max));;
      require_offsets_sane frameSize rest
  end.

(** [for( size_t i = 0; i < offsets1.size(); ++i )], over the neurons of
    [offsets1] that are left. *)
Fixpoint verify_offsets (frameSize : Z) (offsets1 offsets2 : SectionOffsets)
    (i : nat) : Run unit :=
  match offsets1 with
  | [] => mret ()
  | offsets1_i :: rest =>
      offsets2_i ← defined (offsets2 !! i);
      requireEqualCollections Z_differ offsets1_i offsets2_i;;
      require_offsets_sane frameSize offsets1_i;;
      verify_offsets frameSize rest offsets2 (S i)
  end.

(** [for( size_t i = 0; i < in.getFrameSize(); ++i )
        REQUIRE_EQUAL( frame1[i], frame2[i] );] on the vectors the two frame
    pointers point to, with [n] indices left. *)
Fixpoint compare_frames (frame1 frame2 : floats) (n i : nat) : Run unit :=
  match n with
  | O => mret ()
  | S n' =>
      a ← defined (frame1 !! i);
      b ← defined (frame2 !! i);
      REQUIRE_EQUAL (Float32.neqb a b);;
      compare_frames frame1 frame2 n' (S i)
  end.

(** The body of the loop over the timestamps. *)
Definition verify_frame (in_ result : CompartmentReport) (t : float) : Run unit :=
  let frame1 := loadFrame in_ t in
  let frame2 := loadFrame result t in
  REQUIRE (bool_decide (is_Some frame1));;
  REQUIRE (bool_decide (is_Some frame2));;
  compare_frames (default [] frame1) (default [] frame2)
                 (Z.to_nat (getFrameSize in_)) 0.

(** [for( float t = start; t < end; t += step )], from [t] on. The C++ loop
    has no bound on its number of steps; the model gives up with [OutOfFuel]
    when [fuel] steps were not enough. *)
Fixpoint verify_frames (in_ result : CompartmentReport) (end_ step : float)
    (fuel : nat) (t : float) : Run unit :=
  if Float32.ltb t end_ then
    match fuel with
    | O => stop OutOfFuel
    | S fuel' =>
        verify_frame in_ result t;;
        verify_frames in_ result end_ step fuel' (Float32.add t step)
    end
  else mret ().

(** The block under [--compare]; [result] is the written report,
    opened for reading. *)
Definition verify (in_ result : CompartmentReport) (start end_ step : float)
    (fuel : nat) : Run unit :=
  REQUIRE_EQUAL (Float32.neqb (getStartTime in_) (getStartTime result));;
  REQUIRE_EQUAL (Float32.neqb (getEndTime in_) (getEndTime result));;
  REQUIRE_EQUAL (Float32.neqb (getTimestep in_) (getTimestep result));;
  REQUIRE_EQUAL (Z_differ (getFrameSize in_) (getFrameSize result));;
  requireEqualCollections Z_differ (getGIDs in_) (getGIDs result);;
  REQUIRE_EQUAL (string_differ (getDataUnit in_) (getDataUnit result));;
  REQUIRE_EQUAL (string_differ (getTimeUnit in_) (getTimeUnit result));;
  REQUIRE (negb (String.eqb (getDataUnit in_) ""));;
  REQUIRE (negb (String.eqb (getTimeUnit in_) ""));;
  let offsets1 := getOffsets in_ in
  let offsets2 := getOffsets result in
  let counts1 := getCompartmentCounts in_ in
  let counts2 := getCompartmentCounts result in
  REQUIRE_EQUAL (negb (length offsets1 =? length offsets2)%nat);;
  REQUIRE_EQUAL (negb (length counts1 =? length counts2)%nat);;
  verify_offsets (getFrameSize in_) offsets1 offsets2 0;;
  verify_frames in_ result end_ step fuel start.

(** ** The converter *)

(** From [writeHeader] to the frame count, which is the result. *)
Definition setup (vm : Options) (in_ : CompartmentReport) (w : World) : Run Z :=
  let start := getStartTime in_ in
  let step := getTimestep in_ in
  let end_ := clamped_end vm in_ in
  call (writeHeader start end_ step (getDataUnit in_) (getTimeUnit in_));;
  write_layout (getRank w) (getSize w) in_;;
  defined (nFrames start end_ step).

(** What follows the test [startFrame > nFrames] when it is false. *)
Definition conversion (vm : Options) (in_ result : CompartmentReport) (w : World)
    (fuel : nat) (frames : Z) : Run unit :=
  convert w in_ frames;;
  when (opt_compare vm)
       (verify in_ result (getStartTime in_) (clamped_end vm in_)
               (getTimestep in_) fuel);;
  stop (Exit EXIT_SUCCESS).

(** [main] for a command line that parsed, from the evaluation of the
    options on. [in_] is the report that opening the input URI gives,
    [result] the one that opening the output URI gives after the
    conversion. *)
Definition main_run (vm : Options) (in_ result : CompartmentReport) (w : World)
    (fuel : nat) : Run unit :=
  if opt_help vm then stop (Exit EXIT_SUCCESS)
  else if opt_version vm then stop (Exit EXIT_SUCCESS)
  else if String.eqb (opt_input vm) "" then stop (Exit EXIT_FAILURE)
  else if opt_dump vm then stop (Exit EXIT_SUCCESS)
  else
    frames ← setup vm in_ w;
    (* Prequeue work for ranks 1..n *)
    if bool_decide (startFrame (getSize w) frames > frames)
    then stop (Exit EXIT_FAILURE)
    else conversion vm in_ result w fuel frames.

(** The outcome of [main] and the calls it made. *)
Definition main (vm : Options) (in_ result : CompartmentReport) (w : World)
    (fuel : nat) : Outcome * list Call :=
  match main_run vm in_ result w fuel [] with
  | (Stop o, tr) => (o, tr)
  | (Next _, tr) => (Exit EXIT_SUCCESS, tr)
  end.

(** ** The layout and the slices as the specification words them *)

(** The sub-range [frame[offset : offset + count]]. *)
Definition section_slice (frame : floats) (offset count : Z) : floats :=
  take (Z.to_nat count) (drop (Z.to_nat offset) frame).

(** The concatenation, over the sections in order, of their sub-ranges. *)
Definition slice_spec (frame : floats) (offsets_i : uint64_ts)
    (counts_i : uint16_ts) : floats :=
  concat (zip_with (section_slice frame) offsets_i counts_i).

(** The sum over [j] of [counts[i][j]]. *)
Definition sum_counts (counts_i : uint16_ts) : Z := foldr Z.add 0 counts_i.

(** The invariant of one section: a section at the sentinel offset has no
    compartments, any other lies within the frame. *)
Definition section_ok (frameSize offset count : Z) : Prop :=
  0 ≤ count ∧
  (offset = Machine.size_t_max → count = 0) ∧
  (offset ≠ Machine.size_t_max → 0 ≤ offset ∧ offset + count ≤ frameSize).

(** The invariant of the layout: an offset and a count per section of each
    neuron, every section sound. *)
Definition layout_ok (frameSize : Z) (offsets : SectionOffsets)
    (counts : CompartmentCounts) : Prop :=
  Forall2 (Forall2 (section_ok frameSize)) offsets counts.

(** The timestamps hit by stepping from [t] by [step] while below [end_];
    [None] when [fuel] steps do not reach [end_]. *)
Fixpoint timestamps (end_ step : float) (fuel : nat) (t : float)
    : option (list float) :=
  if Float32.ltb t end_ then
    match fuel with
    | O => None
    | S fuel' => (t ::.) <$> timestamps end_ step fuel' (Float32.add t step)
    end
  else Some [].

(** The timestamps the loop reaches within [fuel] steps from [t], and
    whether it has left [t < end_] by then. *)
Fixpoint visited (end_ step : float) (fuel : nat) (t : float)
    : list float * bool :=
  if Float32.ltb t end_ then
    match fuel with
    | O => ([], false)
    | S fuel' =>
        let r := visited end_ step fuel' (Float32.add t step) in (t :: r.1, r.2)
    end
  else ([], true).

(** What [a == b] means for the bits of two [float]s: [a] is no NaN, and
    the two are the same [float] or are two zeros, of whatever signs. *)
Definition same_value (a b : float) : Prop :=
  a ≠ S754_nan ∧ (a = b ∨ ∃ s s', a = S754_zero s ∧ b = S754_zero s').

(** Two frames have voltages at the indices [idxs], pairwise equal under
    [==]. *)
Definition equal_at (frame1 frame2 : floats) (idxs : list nat) : bool :=
  forallb (λ i, match frame1 !! i, frame2 !! i with
                | Some a, Some b => Float32.eqb a b
                | _, _ => false
                end) idxs.

(** Both reports have a frame at [t] and the first [frameSize] voltages are
    pairwise equal under [==]. *)
Definition frames_agree (in_ result : CompartmentReport) (t : float) : bool :=
  match loadFrame in_ t, loadFrame result t with
  | Some frame1, Some frame2 =>
      equal_at frame1 frame2 (seq 0 (Z.to_nat (getFrameSize in_)))
  | _, _ => false
  end.

(** ** Frames in sequence *)

(** Loading and writing the frames of a list, one after the other. *)
Fixpoint process_frames (in_ : CompartmentReport) (frames : list Z) : Run unit :=
  match frames with
  | [] => mret ()
  | frame :: frames' => process_frame in_ frame;; process_frames in_ frames'
  end.

(** ** The frames of a worker *)

(** The frames a worker takes from those it receives, with [n] loop indices
    left: one per index, up to the first negative one. *)
Fixpoint taken (n : nat) (frames : list Z) : list Z :=
  match n, frames with
  | S n', frame :: rest =>
      if bool_decide (frame < 0) then [] else frame :: taken n' rest
  | _, _ => []
  end.

(** What the worker has not received when its loop ends; the negative frame
    that ends the loop is received. *)
Fixpoint left_over (n : nat) (frames : list Z) : list Z :=
  match n, frames with
  | S n', frame :: rest =>
      if bool_decide (frame < 0) then rest else left_over n' rest
  | _, _ => frames
  end.

(** Whether the worker comes to a receive with nothing left to receive. *)
Fixpoint starves (n : nat) (frames : list Z) : bool :=
  match n, frames with
  | S n', frame :: rest =>
      if bool_decide (frame < 0) then false else starves n' rest
  | S _, [] => true
  | O, _ => false
  end.

(** Loading, writing and reporting to rank 0 the frames of a list, one after
    the other. *)
Fixpoint report_frames (in_ : CompartmentReport) (frames : list Z) : Run unit :=
  match frames with
  | [] => mret ()
  | frame :: frames' =>
      process_frame in_ frame;;
      call (MPI_Isend frame 0 TAG_FRAME_DONE);;
      report_frames in_ frames'
  end.

(** ** Runs that make no call; the comparison as one condition *)

(** A piece of [main] that leaves the trace as it is, whatever its result. *)
Definition silent {A} (m : Run A) : Prop := ∀ tr, (m tr).2 = tr.

(** [offset < frameSize || offset == max] for every offset of every neuron. *)
Definition offsets_sane (frameSize : Z) (offsets : SectionOffsets) : bool :=
  forallb (forallb (λ offset, (offset <? frameSize) || (offset =? Machine.size_t_max)))
          offsets.

(** Everything the comparison requires of the input and the written report,
    with the frames at the timestamps [ts]. *)
Definition reports_agree (in_ result : CompartmentReport) (ts : list float) : bool :=
  Float32.eqb (getStartTime in_) (getStartTime result) &&
  Float32.eqb (getEndTime in_) (getEndTime result) &&
  Float32.eqb (getTimestep in_) (getTimestep result) &&
  bool_decide (getFrameSize in_ = getFrameSize result) &&
  bool_decide (getGIDs in_ = getGIDs result) &&
  bool_decide (getDataUnit in_ = getDataUnit result) &&
  bool_decide (getTimeUnit in_ = getTimeUnit result) &&
  bool_decide (getDataUnit in_ ≠ "") &&
  bool_decide (getTimeUnit in_ ≠ "") &&
  bool_decide (length (getOffsets in_) = length (getOffsets result)) &&
  bool_decide (length (getCompartmentCounts in_)
               = length (getCompartmentCounts result)) &&
  bool_decide (getOffsets in_ = getOffsets result) &&
  offsets_sane (getFrameSize in_) (getOffsets in_) &&
  forallb (frames_agree in_ result) ts.

(** ** Kinds of calls *)

(** A piece of [main] whose calls all satisfy [P], whatever its result. *)
Definition emits {A} (P : Call → Prop) (m : Run A) : Prop :=
  ∀ tr, ∃ calls, (m tr).2 = tr ++ calls ∧ Forall P calls.

(** [addGID] and [writeCompartments]. *)
Definition is_gid_call (c : Call) : Prop :=
  match c with addGID _ | writeCompartments _ _ => True | _ => False end.

(** [writeFrame]. *)
Definition is_writeFrame (c : Call) : Prop :=
  match c with writeFrame _ _ _ => True | _ => False end.

(** [MPI_Isend] with [TAG_FRAME]. *)
Definition is_frame_send (c : Call) : Prop :=
  match c with MPI_Isend _ _ TAG_FRAME => True | _ => False end.

(** [writeFrame] and [MPI_Isend]: the calls between layout and [flush]. *)
Definition is_frame_call (c : Call) : Prop :=
  match c with writeFrame _ _ _ | MPI_Isend _ _ _ => True | _ => False end.

(** The [MPI_Isend] calls of a trace: payload, destination and tag. *)
Definition sends (tr : list Call) : list (Z * Z * RequestTag) :=
  omap (λ c, match c with
             | MPI_Isend payload dest tag => Some (payload, dest, tag)
             | _ => None
             end) tr.

(** A report with another table of compartment counts. *)
Definition with_counts (r : CompartmentReport) (counts : CompartmentCounts)
    : CompartmentReport := {|
  getStartTime := getStartTime r;
  getEndTime := getEndTime r;
  getTimestep := getTimestep r;
  getDataUnit := getDataUnit r;
  getTimeUnit := getTimeUnit r;
  getGIDs := getGIDs r;
  getOffsets := getOffsets r;
  getCompartmentCounts := counts;
  getFrameSize := getFrameSize r;
  loadFrame := loadFrame r;
|}.

(** The GID of a layout call. *)
Definition call_gid (c : Call) : option Z :=
  match c with
  | addGID gid | writeCompartments gid _ => Some gid
  | _ => None
  end.

(** The layout call for the neuron at [index]: [writeCompartments] with its
    counts within the range [first, last), [addGID] outside. *)
Definition layout_call (first last : Z) (counts : CompartmentCounts)
    (index : nat) (gid : Z) : Call :=
  if bool_decide (first ≤ Z.of_nat index < last)
  then writeCompartments gid (default [] (counts !! index))
  else addGID gid.

(** The handle [MPI_Isend] stores for [frame] sent to [dest]. *)
Definition frame_handle (frame dest : Z) : MPI_Request :=
  {| req_payload := frame; req_dest := dest; req_tag := TAG_FRAME |}.

(** A piece of [main] that does not end the process with an exit code: it
    goes on, blocks or is undefined. *)
Definition no_exit {A} (m : Run A) : Prop :=
  ∀ tr code, (m tr).1 ≠ Stop (Exit code).

(** ** Reading traces *)

(** Whether a trace has a [writeCompartments] call for [gid]. *)
Definition writes_compartments (gid : Z) (tr : list Call) : bool :=
  existsb (λ c, match c with writeCompartments g _ => g =? gid | _ => false end) tr.

(** Whether a trace has a [writeFrame] call for [gid]. *)
Definition writes_frame (gid : Z) (tr : list Call) : bool :=
  existsb (λ c, match c with writeFrame g _ _ => g =? gid | _ => false end) tr.


(** The [writeFrame] calls of a trace: GID and time of each. *)
Definition frame_writes (tr : list Call) : list (Z * float) :=
  omap (λ c, match c with writeFrame g _ t => Some (g, t) | _ => None end) tr.

(** The ranks of a world of [nRanks] processes that call
    [writeCompartments] for [gid]. *)
Definition owners (nRanks : Z) (in_ : CompartmentReport) (gid : Z) : list Z :=
  filter (λ rank, writes_compartments gid (write_layout rank nRanks in_ []).2 = true)
         (seqZ 0 nRanks).

(** ** Reports and worlds of the examples *)

(** A report of [n] neurons with GIDs [1..n], one section of one compartment
    each, whose every frame is [0, 1, .., n-1]. *)
Definition uniform_report (n : Z) (start end_ step : float) : CompartmentReport := {|
  getStartTime := start;
  getEndTime := end_;
  getTimestep := step;
  getDataUnit := "mV";
  getTimeUnit := "ms";
  getGIDs := seqZ 1 n;
  getOffsets := (λ i, [i]) <$> seqZ 0 n;
  getCompartmentCounts := (λ _, [1]) <$> seqZ 0 n;
  getFrameSize := n;
  loadFrame := λ _, Some (Float32.of_Z <$> seqZ 0 n);
|}.

(** The command line [-i in.bbp], with [--maxFrames] and [--compare] as
    given. *)
Definition command_line (m : option Z) (compare : bool) : Options := {|
  opt_help := false;
  opt_version := false;
  opt_input := "in.bbp";
  opt_output := None;
  opt_maxFrames := m;
  opt_compare := compare;
  opt_dump := false;
|}.

(** An [MPI_Wait] that leaves the caller's status as it found it. *)
Definition wait_keeps_status (_ : MPI_Request) (status : MPI_Status) : MPI_Status :=
  status.

(** An [MPI_Wait] that stores the status of the completed request: for a
    send, the rank of the process that waits (as sender) and the tag sent. *)
Definition wait_stores_status (me : Z) (request : MPI_Request) (_ : MPI_Status)
    : MPI_Status :=
  {| MPI_SOURCE := me; MPI_TAG := req_tag request |}.

(** Two neurons over frames of four voltages; the second neuron has a
    section without compartments, at the sentinel offset. *)
Definition sample_report : CompartmentReport := {|
  getStartTime := Float32.of_Z 0;
  getEndTime := Float32.of_Z 3;
  getTimestep := Float32.of_Z 1;
  getDataUnit := "mV";
  getTimeUnit := "ms";
  getGIDs := [7; 9];
  getOffsets := [[0]; [1; Machine.size_t_max; 2]];
  getCompartmentCounts := [[1]; [1; 0; 2]];
  getFrameSize := 4;
  loadFrame := λ _, Some (Float32.of_Z <$> [10; 11; 12; 13]);
|}.

(** The sample report with the last voltage of every frame changed. *)
Definition altered_report : CompartmentReport := {|
  getStartTime := getStartTime sample_report;
  getEndTime := getEndTime sample_report;
  getTimestep := getTimestep sample_report;
  getDataUnit := getDataUnit sample_report;
  getTimeUnit := getTimeUnit sample_report;
  getGIDs := getGIDs sample_report;
  getOffsets := getOffsets sample_report;
  getCompartmentCounts := getCompartmentCounts sample_report;
  getFrameSize := getFrameSize sample_report;
  loadFrame := λ _, Some (Float32.of_Z <$> [10; 11; 12; 14]);
|}.

(** A report whose every frame is [frame]. *)
Definition with_frame (r : CompartmentReport) (frame : floats)
    : CompartmentReport := {|
  getStartTime := getStartTime r;
  getEndTime := getEndTime r;
  getTimestep := getTimestep r;
  getDataUnit := getDataUnit r;
  getTimeUnit := getTimeUnit r;
  getGIDs := getGIDs r;
  getOffsets := getOffsets r;
  getCompartmentCounts := getCompartmentCounts r;
  getFrameSize := getFrameSize r;
  loadFrame := λ _, Some frame;
|}.

(** A world of one process. *)
Definition single_process : World := {|
  getRank := 0;
  getSize := 1;
  MPI_Wait_status := wait_keeps_status;
  probes := [];
  inbox := [];
|}.

(** [0.01f] *)
Definition centi : float := S754_finite false 10737418 (-30).

(** * Properties *)

(** ** The monad of runs *)

Lemma run_bind_next {A B} (m : Run A) (f : A → Run B) tr a tr' :
  m tr = (Next a, tr') → (m ≫= f) tr = f a tr'.
Proof. intros H. unfold mbind, Run_bind. by rewrite H. Qed.

Lemma run_bind_stop {A B} (m : Run A) (f : A → Run B) tr o tr' :
  m tr = (Stop o, tr') → (m ≫= f) tr = (Stop o, tr').
Proof. intros H. unfold mbind, Run_bind. by rewrite H. Qed.

Lemma run_call_bind {B} (c : Call) (f : unit → Run B) tr :
  (call c ≫= f) tr = f () (tr ++ [c]).
Proof. reflexivity. Qed.

Lemma run_ret_bind {A B} (a : A) (f : A → Run B) tr :
  (mret a ≫= f) tr = f a tr.
Proof. reflexivity. Qed.

Lemma run_bind_assoc {A B C} (m : Run A) (f : A → Run B) (g : B → Run C) tr :
  ((m ≫= f) ≫= g) tr = (m ≫= λ a, f a ≫= g) tr.
Proof.
  unfold mbind, Run_bind. by destruct (m tr) as [[o|a] tr'].
Qed.

(** ** Partition of the GIDs *)

(** The range of a rank starts where the range of the rank before ends. *)
Lemma startGID_succ (rank : Z) (r : float) :
  -1 ≤ rank < 2 ^ 31 - 1 → startGID (rank + 1) r = endGID rank r.
Proof.
  intros H. unfold startGID, endGID, Machine.to_int.
  replace ((rank + 1 + 2 ^ 31) `mod` 2 ^ 32 - 2 ^ 31) with (rank + 1); [done|].
  rewrite Z.mod_small; lia.
Qed.

(** 3 GIDs over 2 ranks: rank 0 gets [0, 1) and rank 1 gets [1, 3). *)
Example partition_3_over_2 :
  (startGID 0 (range 3 2), endGID 0 (range 3 2)) = (Some 0, Some 1) ∧
  (startGID 1 (range 3 2), endGID 1 (range 3 2)) = (Some 1, Some 3).
Proof. vm_compute. split; reflexivity. Qed.

(** C2, at 13 GIDs and 11 ranks: the last rank, 10, computes the range
    [11, 12) where floor division gives [11, 13): [13 / 11] rounds down to
    a [float] whose product with 11 is below 13. It calls
    [writeCompartments] for index 11 only and [addGID] for index 12. *)
Theorem last_rank_range_13_11 :
  let in_ := uniform_report 13 (Float32.of_Z 0) (Float32.of_Z 1) (Float32.of_Z 1) in
  10 * 13 / 11 = 11 ∧ (10 + 1) * 13 / 11 = 13 ∧
  startGID 10 (range 13 11) = Some 11 ∧
  endGID 10 (range 13 11) = Some 12 ∧
  write_layout 10 11 in_ [] =
    (Next (), (addGID <$> seqZ 1 11) ++ [writeCompartments 12 [1]; addGID 13]).
Proof. vm_compute. repeat split; reflexivity. Qed.

(** C3, at 13 GIDs and 11 ranks: no rank calls [writeCompartments] for the
    last GID (index 12), every rank calls [addGID] for it; the GID before it
    is owned by rank 10. *)
Theorem gid_without_owner_13_11 :
  let in_ := uniform_report 13 (Float32.of_Z 0) (Float32.of_Z 1) (Float32.of_Z 1) in
  getGIDs in_ !! 12%nat = Some 13 ∧
  owners 11 in_ 13 = [] ∧
  owners 11 in_ 12 = [10] ∧
  (λ rank, (write_layout rank 11 in_ []).2 !! 12%nat) <$> seqZ 0 11
    = replicate 11 (Some (addGID 13)).
Proof. vm_compute. repeat split; reflexivity. Qed.

(** ** Time range and frame count *)

(** Without [--maxFrames] the bound is the largest [size_t]. *)
Lemma maxFrames_default compare :
  maxFrames (command_line None compare) = Machine.size_t_max.
Proof. reflexivity. Qed.

(** [start = 0], [end = 10], [step = 1]: [--maxFrames 4] gives the end time
    4 and 4 frames; without [--maxFrames] end time and frame count stay 10. *)
Example maxFrames_4_of_10 :
  let in_ := uniform_report 1 (Float32.of_Z 0) (Float32.of_Z 10) (Float32.of_Z 1) in
  clamped_end (command_line (Some 4) false) in_ = Float32.of_Z 4 ∧
  nFrames (Float32.of_Z 0) (Float32.of_Z 4) (Float32.of_Z 1) = Some 4 ∧
  clamped_end (command_line None false) in_ = Float32.of_Z 10 ∧
  nFrames (Float32.of_Z 0) (Float32.of_Z 10) (Float32.of_Z 1) = Some 10.
Proof. vm_compute. repeat split; reflexivity. Qed.

(** C6, at [start = 0], [end = 10], [step = 0.01f] and [--maxFrames 15]:
    the end time is [start + 15 * step], below the end of the input, but the
    frame count [(end - start) / step] is 14, not [min( 1000, 15 )], and a
    single process writes 14 frames. *)
Theorem maxFrames_15_converts_14 :
  let in_ := uniform_report 1 (Float32.of_Z 0) (Float32.of_Z 10) centi in
  let vm := command_line (Some 15) false in
  let w := {| getRank := 0; getSize := 1; MPI_Wait_status := wait_keeps_status;
              probes := []; inbox := [] |} in
  Float32.valid centi = true ∧
  clamped_end vm in_ = maxEnd (Float32.of_Z 0) centi 15 ∧
  nFrames (Float32.of_Z 0) (getEndTime in_) centi = Some 1000 ∧
  nFrames (Float32.of_Z 0) (clamped_end vm in_) centi = Some 14 ∧
  (main vm in_ in_ w 0).1 = Exit EXIT_SUCCESS ∧
  length (frame_writes (main vm in_ in_ w 0).2) = 14%nat.
Proof. vm_compute. repeat split; reflexivity. Qed.

(** At [start = 1e8], [step = 1] and [--maxFrames 5] the sum
    [start + 5 * step] rounds up to [start + 8]: 8 frames are converted,
    more than the bound. *)
Lemma maxFrames_5_converts_8 :
  let start := Float32.of_Z 100000000 in
  let in_ := uniform_report 1 start (Float32.of_Z 100000016) (Float32.of_Z 1) in
  let vm := command_line (Some 5) false in
  clamped_end vm in_ = Float32.of_Z 100000008 ∧
  nFrames start (clamped_end vm in_) (Float32.of_Z 1) = Some 8.
Proof. vm_compute. split; reflexivity. Qed.

(** ** Dispatch of frames *)

Lemma send_frame_run key payload dest (reqs : Requests) tr :
  send_frame key payload dest reqs tr =
    (Next (<[key := {| req_payload := payload; req_dest := dest;
                       req_tag := TAG_FRAME |}]> reqs),
     tr ++ [MPI_Isend payload dest TAG_FRAME]).
Proof. reflexivity. Qed.

(** On a pending completion the coordinator erases the handle stored under
    the completed frame and sends loop index [i] to the rank that [status]
    names after [MPI_Wait] has been given it. *)
Lemma dispatch_next_run w i frame source (reqs : Requests) tr :
  let status := MPI_Wait_status w (default null_request (reqs !! frame))
                  {| MPI_SOURCE := source; MPI_TAG := TAG_FRAME_DONE |} in
  dispatch_next w i frame source reqs tr =
    (Next (<[Machine.to_int i :=
               {| req_payload := Machine.to_int i; req_dest := MPI_SOURCE status;
                  req_tag := TAG_FRAME |}]> (delete frame reqs)),
     tr ++ [MPI_Isend (Machine.to_int i) (MPI_SOURCE status) TAG_FRAME]).
Proof. reflexivity. Qed.

(** Where [MPI_Wait] leaves [MPI_SOURCE] of the status alone, the next frame
    goes to the source of the completion and the handle of the completed
    frame is gone. *)
Lemma dispatch_next_to_source w i frame source (reqs : Requests) tr :
  (∀ request status,
     MPI_SOURCE (MPI_Wait_status w request status) = MPI_SOURCE status) →
  ∃ reqs',
    dispatch_next w i frame source reqs tr =
      (Next reqs', tr ++ [MPI_Isend (Machine.to_int i) source TAG_FRAME]) ∧
    (frame ≠ Machine.to_int i → reqs' !! frame = None) ∧
    req_dest <$> reqs' !! Machine.to_int i = Some source.
Proof.
  intros Hkeep. rewrite dispatch_next_run, Hkeep. simpl.
  eexists. split; [reflexivity|]. split.
  - intros Hne. rewrite lookup_insert_ne by done. apply lookup_delete_eq.
  - by rewrite lookup_insert_eq.
Qed.

(** C4, with an [MPI_Wait] that stores the status of the completed send in
    [status]: rank 0 of 2 converts 3 frames, rank 1 reports frame 0 done at
    loop index 2, and frame 2 is sent to rank 0 itself, not to rank 1.
    [MPI_Wait( &requests[frame], &status )] is given the status that
    [MPI_Recv] filled, and [status.MPI_SOURCE] is read after it. *)
Theorem next_frame_not_sent_to_source :
  let in_ := uniform_report 2 (Float32.of_Z 0) (Float32.of_Z 3) (Float32.of_Z 1) in
  let w := {| getRank := 0; getSize := 2;
              MPI_Wait_status := wait_stores_status 0;
              probes := [Some (0, 1)]; inbox := [] |} in
  (dispatch_next w 2 0 1 ∅ []).2 = [MPI_Isend 2 0 TAG_FRAME] ∧
  main (command_line None false) in_ in_ w 0 =
    (Exit EXIT_SUCCESS,
     [writeHeader (Float32.of_Z 0) (Float32.of_Z 3) (Float32.of_Z 1) "mV" "ms";
      writeCompartments 1 [1]; addGID 2;
      MPI_Isend 0 1 TAG_FRAME; MPI_Isend 1 1 TAG_FRAME;
      MPI_Isend 2 0 TAG_FRAME;
      MPI_Isend (-1) 1 TAG_FRAME; flush]).
Proof. vm_compute. split; reflexivity. Qed.

Lemma startFrame_2_2 : startFrame 2 2 = 2.
Proof. reflexivity. Qed.

(** C5, at 2 ranks and 2 frames, where [(N-1) * Q = 2 <= nFrames]: rank 0
    queues frames 0 and 1 for rank 1, and the frame loop, which on every
    rank runs over the indices from [startFrame] to [nFrames], is empty on
    both ranks. Whatever the messages delivered, neither rank loads or
    writes a frame: not for a report of two frames run through [main], nor
    for any other report handed to the conversion with a frame count of
    2. *)
Theorem two_ranks_two_frames_none_processed
    (in_ : CompartmentReport) (wait : MPI_Request → MPI_Status → MPI_Status)
    (pr : list (option (Z * Z))) (inb : list Z) (tr : list Call) :
  let rank0 := {| getRank := 0; getSize := 2; MPI_Wait_status := wait;
                  probes := pr; inbox := inb |} in
  let rank1 := {| getRank := 1; getSize := 2; MPI_Wait_status := wait;
                  probes := pr; inbox := inb |} in
  let two_frames :=
    uniform_report 2 (Float32.of_Z 0) (Float32.of_Z 2) (Float32.of_Z 1) in
  startFrame 2 2 ≤ 2 ∧
  frame_writes (main (command_line None false) two_frames two_frames rank0 0).2 = [] ∧
  frame_writes (main (command_line None false) two_frames two_frames rank1 0).2 = [] ∧
  convert rank0 in_ 2 tr =
    (Next 0, tr ++ [MPI_Isend 0 1 TAG_FRAME; MPI_Isend 1 1 TAG_FRAME;
                    MPI_Isend (-1) 1 TAG_FRAME; flush]) ∧
  convert rank1 in_ 2 tr = (Next 0, tr ++ [flush]).
Proof.
  split; [by rewrite startFrame_2_2|].
  split; [reflexivity|]. split; [reflexivity|].
  unfold convert. cbn [getRank getSize probes inbox].
  rewrite startFrame_2_2. change (Z.to_nat (2 - 2)) with 0%nat.
  split.
  - change (preQueue 2) with 2. change (prequeued 2 2) with [(0, 1); (1, 1)].
    change (stop_frames 2) with [(-1, 1)].
    rewrite (bool_decide_eq_true_2 (0 = 0)) by done.
    unfold send_frames, send_frame, call, mbind, Run_bind, mret, Run_ret. cbn.
    by rewrite <- !app_assoc.
  - reflexivity.
Qed.

(** ** The voltages of one neuron *)

Lemma to_size_t_small z : 0 ≤ z ≤ Machine.size_t_max → Machine.to_size_t z = z.
Proof.
  unfold Machine.to_size_t, Machine.size_t_max. intros H.
  apply Z.mod_small. lia.
Qed.

Lemma to_int_small z : - 2 ^ 31 ≤ z < 2 ^ 31 → Machine.to_int z = z.
Proof.
  unfold Machine.to_int. intros H. rewrite Z.mod_small; lia.
Qed.

(** A section of no compartments is not read, whatever its offset. *)
Lemma inner_loop_empty voltages offset acc log :
  inner_loop voltages offset 0 (Z.to_nat 0) acc log = (Some acc, log).
Proof. reflexivity. Qed.

Section Slice.

(** A frame whose size is a [size_t]. *)
Context (voltages : floats).
Context (Hmax : Z.of_nat (length voltages) ≤ Machine.size_t_max).

(** The inner loop within the frame: it appends the voltages at
    [offset + k], [offset + k + 1], ... and reads nothing else. *)
Lemma inner_loop_in_range offset n : ∀ k acc log,
  0 ≤ offset → 0 ≤ k →
  offset + k + Z.of_nat n ≤ Z.of_nat (length voltages) →
  inner_loop voltages offset k n acc log =
    (Some (acc ++ take n (drop (Z.to_nat (offset + k)) voltages)),
     log ++ seqZ (offset + k) (Z.of_nat n)).
Proof.
  induction n as [|n IH]; intros k acc log Ho Hk Hlen.
  - cbn. by rewrite !app_nil_r.
  - cbn [inner_loop]. rewrite to_size_t_small by lia.
    destruct (lookup_lt_is_Some_2 voltages (Z.to_nat (offset + k))) as [v Hv];
      [lia|].
    rewrite Hv, IH by lia.
    rewrite (drop_S _ _ _ Hv). cbn [take].
    replace (Z.to_nat (offset + (k + 1))) with (S (Z.to_nat (offset + k))) by lia.
    rewrite <- !app_assoc. cbn [app].
    rewrite (seqZ_cons (offset + k)) by lia.
    repeat f_equal; lia.
Qed.

(** One sound section: the inner loop appends its sub-range and reads the
    indices [offset, offset + count). *)
Lemma inner_loop_section offset count acc log :
  section_ok (Z.of_nat (length voltages)) offset count →
  inner_loop voltages offset 0 (Z.to_nat count) acc log =
    (Some (acc ++ section_slice voltages offset count),
     log ++ seqZ offset count).
Proof.
  intros (Hc & Hs & Hn).
  destruct (decide (offset = Machine.size_t_max)) as [Heq|Hne].
  - rewrite (Hs Heq). unfold section_slice. cbn. by rewrite !app_nil_r.
  - destruct (Hn Hne) as [Ho Hle].
    rewrite inner_loop_in_range by lia.
    unfold section_slice. rewrite Z.add_0_r, Z2Nat.id by lia. done.
Qed.

(** The outer loop from section [j] on, for a neuron whose sections from
    [j] on are sound. *)
Lemma outer_loop_sections counts index counts_index :
  counts !! index = Some counts_index →
  ∀ offs j acc log,
    Forall2 (section_ok (Z.of_nat (length voltages))) offs (drop j counts_index) →
    outer_loop voltages offs counts index j acc log =
      (Some (acc ++ slice_spec voltages offs (drop j counts_index)),
       log ++ concat (zip_with seqZ offs (drop j counts_index))).
Proof.
  intros Hc offs.
  induction offs as [|offset offs IH]; intros j acc log Hall.
  - cbn. by rewrite !app_nil_r.
  - inversion Hall as [|? count ? rest Hok Hrest Ho Hdrop]; subst.
    assert (counts_index !! j = Some count) as Hj.
    { rewrite <- (Nat.add_0_r j), <- lookup_drop, <- Hdrop. done. }
    assert (drop (S j) counts_index = rest) as Hrest'.
    { rewrite (drop_S _ _ _ Hj) in Hdrop. by inversion Hdrop. }
    cbn [outer_loop]. rewrite Hc. cbn [mbind option_bind]. rewrite Hj.
    rewrite inner_loop_section by done.
    rewrite IH by (by rewrite Hrest').
    rewrite Hrest'. unfold slice_spec. cbn [zip_with concat].
    by rewrite <- !app_assoc.
Qed.

(** The vector built for a neuron of a sound layout, and the indices read
    while building it. *)
Lemma cellVoltages_sound offsets counts index offs cnts :
  offsets !! index = Some offs →
  counts !! index = Some cnts →
  Forall2 (section_ok (Z.of_nat (length voltages))) offs cnts →
  cellVoltages voltages offsets counts index =
    (Some (slice_spec voltages offs cnts), concat (zip_with seqZ offs cnts)).
Proof.
  intros Ho Hc Hall. unfold cellVoltages. rewrite Ho.
  by rewrite (outer_loop_sections _ _ _ Hc offs 0%nat [] []).
Qed.

End Slice.

(** The length of the slice of a sound neuron is the sum of its counts. *)
Lemma slice_spec_length voltages offs cnts :
  Forall2 (section_ok (Z.of_nat (length voltages))) offs cnts →
  Z.of_nat (length (slice_spec voltages offs cnts)) = sum_counts cnts.
Proof.
  induction 1 as [|offset count offs cnts (Hc & Hs & Hn) _ IH]; [done|].
  unfold slice_spec in *. cbn [zip_with concat sum_counts foldr].
  rewrite length_app, Nat2Z.inj_add, IH. fold (sum_counts cnts).
  f_equal. unfold section_slice.
  destruct (decide (offset = Machine.size_t_max)) as [Heq|Hne].
  - by rewrite (Hs Heq).
  - destruct (Hn Hne). rewrite length_take, length_drop. lia.
Qed.

(** Every index read for a sound neuron lies within the frame. *)
Lemma sound_reads_in_frame frameSize offs cnts :
  Forall2 (section_ok frameSize) offs cnts →
  Forall (λ i, 0 ≤ i < frameSize) (concat (zip_with seqZ offs cnts)).
Proof.
  induction 1 as [|offset count offs cnts (Hc & Hs & Hn) _ IH]; cbn; [done|].
  apply Forall_app. split; [|done].
  apply Forall_forall. intros i Hi. apply elem_of_seqZ in Hi.
  destruct (decide (offset = Machine.size_t_max)) as [Heq|Hne].
  - specialize (Hs Heq). lia.
  - destruct (Hn Hne). lia.
Qed.

(** C10: for a frame of [frameSize] voltages and a neuron whose sections
    satisfy the layout invariants, the loops read [voltages] exactly at the
    indices [offsets[i][j] + k] with [k < counts[i][j]], all of them within
    [0, frameSize), no read fails, and the inner loop of a section at the
    sentinel offset makes no iteration: it leaves vector and log as they
    are. *)
Theorem voltage_reads_in_bounds
    (voltages : floats) (offsets : SectionOffsets) (counts : CompartmentCounts)
    (index : nat) (offs cnts : list Z) (frameSize : Z) :
  Z.of_nat (length voltages) = frameSize →
  frameSize ≤ Machine.size_t_max →
  offsets !! index = Some offs →
  counts !! index = Some cnts →
  Forall2 (section_ok frameSize) offs cnts →
  is_Some (cellVoltages voltages offsets counts index).1 ∧
  (cellVoltages voltages offsets counts index).2 = concat (zip_with seqZ offs cnts) ∧
  Forall (λ i, 0 ≤ i < frameSize) (cellVoltages voltages offsets counts index).2 ∧
  (∀ j count acc log,
     offs !! j = Some Machine.size_t_max → cnts !! j = Some count →
     inner_loop voltages Machine.size_t_max 0 (Z.to_nat count) acc log
       = (Some acc, log)).
Proof.
  intros Hlen Hmax Ho Hc Hall. subst frameSize.
  rewrite (cellVoltages_sound _ Hmax _ _ _ _ _ Ho Hc Hall). cbn [fst snd].
  split; [by eexists|]. split; [done|]. split.
  - by apply sound_reads_in_frame.
  - intros j count acc log Hj Hcount.
    destruct (Forall2_lookup_lr _ _ _ _ _ _ Hall Hj Hcount) as (_ & Hs & _).
    rewrite (Hs eq_refl). apply inner_loop_empty.
Qed.

(** A frame of four voltages and a neuron of three sections, the second at
    the sentinel offset. *)
Lemma voltage_reads_in_bounds_witness :
  let voltages := Float32.of_Z <$> [10; 11; 12; 13] in
  let offsets := [[0]; [1; Machine.size_t_max; 2]] in
  let counts := [[1]; [1; 0; 2]] in
  is_Some (cellVoltages voltages offsets counts 1).1 ∧
  (cellVoltages voltages offsets counts 1).2
    = concat (zip_with seqZ [1; Machine.size_t_max; 2] [1; 0; 2]) ∧
  Forall (λ i, 0 ≤ i < 4) (cellVoltages voltages offsets counts 1).2 ∧
  (∀ j count acc log,
     [1; Machine.size_t_max; 2] !! j = Some Machine.size_t_max →
     [1; 0; 2] !! j = Some count →
     inner_loop voltages Machine.size_t_max 0 (Z.to_nat count) acc log
       = (Some acc, log)).
Proof.
  apply (voltage_reads_in_bounds
           (Float32.of_Z <$> [10; 11; 12; 13])
           [[0]; [1; Machine.size_t_max; 2]] [[1]; [1; 0; 2]] 1
           [1; Machine.size_t_max; 2] [1; 0; 2] 4);
    [reflexivity | vm_compute; discriminate | reflexivity | reflexivity |].
  repeat constructor; unfold Machine.size_t_max; lia.
Defined.

(** ** One frame *)

(** The loop over the GIDs makes one [writeFrame] call per GID, in order,
    as long as the vector of each neuron can be built. The range of the rank
    plays no part in it. *)
Lemma write_cells_defined in_ voltages t : ∀ gids index tr,
  (∀ i, (index ≤ i < index + length gids)%nat →
        is_Some (cellVoltages voltages (getOffsets in_)
                              (getCompartmentCounts in_) i).1) →
  ∃ calls,
    write_cells in_ voltages t gids index tr = (Next (), tr ++ calls) ∧
    Forall2 (λ '(i, gid) c,
               ∃ cv, c = writeFrame gid cv t ∧
                     (cellVoltages voltages (getOffsets in_)
                                   (getCompartmentCounts in_) i).1 = Some cv)
            (zip (seq index (length gids)) gids) calls.
Proof.
  induction gids as [|gid gids IH]; intros index tr Hdef.
  - exists []. cbn. by rewrite app_nil_r.
  - destruct (Hdef index) as [cv Hcv]; [cbn; lia|].
    destruct (IH (S index) (tr ++ [writeFrame gid cv t])) as (calls & Hrun & Hall).
    { intros i Hi. apply Hdef. cbn. lia. }
    exists (writeFrame gid cv t :: calls). split.
    + cbn [write_cells]. rewrite Hcv. cbn [defined].
      rewrite run_ret_bind, run_call_bind, Hrun. by rewrite <- app_assoc.
    + cbn. constructor; [by exists cv|done].
Qed.

(** The same loop under the layout invariants: the vector written for each
    neuron is the concatenation of its sub-ranges of the frame. *)
Lemma write_cells_sound in_ voltages t :
  Z.of_nat (length voltages) ≤ Machine.size_t_max →
  layout_ok (Z.of_nat (length voltages)) (getOffsets in_) (getCompartmentCounts in_) →
  ∀ gids index tr,
    (index + length gids ≤ length (getOffsets in_))%nat →
    write_cells in_ voltages t gids index tr =
      (Next (),
       tr ++ zip_with (λ gid oc, writeFrame gid (slice_spec voltages oc.1 oc.2) t)
                      gids
                      (drop index (zip (getOffsets in_) (getCompartmentCounts in_)))).
Proof.
  intros Hmax Hlay.
  induction gids as [|gid gids IH]; intros index tr Hlen.
  - cbn. by rewrite app_nil_r.
  - cbn [length] in Hlen.
    destruct (lookup_lt_is_Some_2 (getOffsets in_) index) as [offs Ho]; [lia|].
    destruct (Forall2_lookup_l _ _ _ _ _ Hlay Ho) as (cnts & Hc & Hall).
    assert (zip (getOffsets in_) (getCompartmentCounts in_) !! index
            = Some (offs, cnts)) as Hz.
    { rewrite lookup_zip_with, Ho. cbn. by rewrite Hc. }
    rewrite (drop_S _ _ _ Hz). cbn [write_cells zip_with fst snd].
    rewrite (cellVoltages_sound _ Hmax _ _ _ _ _ Ho Hc Hall). cbn [fst defined].
    rewrite run_ret_bind, run_call_bind, IH by lia.
    by rewrite <- app_assoc.
Qed.

(** C8: for a frame of [frameSize] voltages and a layout that satisfies the
    invariants, processing a frame calls [writeFrame] once per neuron, in
    GID order, with the concatenation over the sections [j] of the
    sub-ranges [frame[offsets[i][j] : offsets[i][j] + counts[i][j]]]; the
    length of that vector is the sum of [counts[i][j]], and a section at the
    sentinel offset contributes no element. *)
Theorem writeFrame_slices
    (in_ : CompartmentReport) (frame : Z) (voltages : floats) (tr : list Call) :
  loadFrame in_ (frame_time in_ frame) = Some voltages →
  Z.of_nat (length voltages) = getFrameSize in_ →
  getFrameSize in_ ≤ Machine.size_t_max →
  layout_ok (getFrameSize in_) (getOffsets in_) (getCompartmentCounts in_) →
  (length (getGIDs in_) ≤ length (getOffsets in_))%nat →
  process_frame in_ frame tr =
    (Next (),
     tr ++ zip_with (λ gid oc, writeFrame gid (slice_spec voltages oc.1 oc.2)
                                          (frame_time in_ frame))
                    (getGIDs in_)
                    (zip (getOffsets in_) (getCompartmentCounts in_))) ∧
  (∀ i offs cnts,
     getOffsets in_ !! i = Some offs → getCompartmentCounts in_ !! i = Some cnts →
     (cellVoltages voltages (getOffsets in_) (getCompartmentCounts in_) i).1
       = Some (slice_spec voltages offs cnts) ∧
     Z.of_nat (length (slice_spec voltages offs cnts)) = sum_counts cnts ∧
     (∀ j count, offs !! j = Some Machine.size_t_max → cnts !! j = Some count →
                 section_slice voltages Machine.size_t_max count = [])).
Proof.
  intros Hload Hlen Hmax Hlay Hgids. rewrite <- Hlen in Hmax, Hlay. split.
  - unfold process_frame. rewrite Hload. cbn [defined]. rewrite run_ret_bind.
    by rewrite (write_cells_sound _ _ _ Hmax Hlay _ 0%nat).
  - intros i offs cnts Ho Hc.
    pose proof (Forall2_lookup_lr _ _ _ _ _ _ Hlay Ho Hc) as Hall.
    split; [by rewrite (cellVoltages_sound _ Hmax _ _ _ _ _ Ho Hc Hall)|].
    split; [by apply slice_spec_length|].
    intros j count Hj Hcount.
    destruct (Forall2_lookup_lr _ _ _ _ _ _ Hall Hj Hcount) as (_ & Hs & _).
    by rewrite (Hs eq_refl).
Qed.

Lemma sample_report_layout_ok :
  layout_ok 4 (getOffsets sample_report) (getCompartmentCounts sample_report).
Proof. repeat constructor; unfold Machine.size_t_max; lia. Qed.

(** Frame 2 of the sample report. *)
Lemma writeFrame_slices_witness :
  let voltages := Float32.of_Z <$> [10; 11; 12; 13] in
  process_frame sample_report 2 [] =
    (Next (),
     [] ++ zip_with (λ gid oc, writeFrame gid (slice_spec voltages oc.1 oc.2)
                                          (frame_time sample_report 2))
                    [7; 9]
                    (zip (getOffsets sample_report)
                         (getCompartmentCounts sample_report))) ∧
  (∀ i offs cnts,
     getOffsets sample_report !! i = Some offs →
     getCompartmentCounts sample_report !! i = Some cnts →
     (cellVoltages voltages (getOffsets sample_report)
                   (getCompartmentCounts sample_report) i).1
       = Some (slice_spec voltages offs cnts) ∧
     Z.of_nat (length (slice_spec voltages offs cnts)) = sum_counts cnts ∧
     (∀ j count, offs !! j = Some Machine.size_t_max → cnts !! j = Some count →
                 section_slice voltages Machine.size_t_max count = [])).
Proof.
  apply (writeFrame_slices sample_report 2
           (Float32.of_Z <$> [10; 11; 12; 13]) []);
    [reflexivity | reflexivity | vm_compute; discriminate
    | exact sample_report_layout_ok | cbn; lia].
Defined.

(** C1 (as amended): for every frame a rank processes and every neuron index
    in GID order, the rank calls [writeFrame( gid, cellVoltages, t )] with
    the vector built for that neuron, whatever the rank and its range of
    GIDs: the range only selects between [writeCompartments] and [addGID]
    before the frame loop. A worker then reports the frame done. *)
Theorem run_frame_writes_every_gid
    (w : World) (in_ : CompartmentReport) (frame : Z) (s : LoopState)
    (voltages : floats) (tr : list Call) :
  0 ≤ frame →
  loadFrame in_ (frame_time in_ frame) = Some voltages →
  (∀ i, (i < length (getGIDs in_))%nat →
        is_Some (cellVoltages voltages (getOffsets in_)
                              (getCompartmentCounts in_) i).1) →
  ∃ calls,
    run_frame w in_ frame s tr =
      (Next (Continue,
             {| requests := requests s; framesDone := framesDone s + 1;
                probes_left := probes_left s; inbox_left := inbox_left s |}),
       tr ++ calls ++
         (if bool_decide (getRank w = 0) then []
          else [MPI_Isend frame 0 TAG_FRAME_DONE])) ∧
    Forall2 (λ '(i, gid) c,
               ∃ cv, c = writeFrame gid cv (frame_time in_ frame) ∧
                     (cellVoltages voltages (getOffsets in_)
                                   (getCompartmentCounts in_) i).1 = Some cv)
            (zip (seq 0 (length (getGIDs in_))) (getGIDs in_)) calls.
Proof.
  intros Hframe Hload Hdef.
  destruct (write_cells_defined in_ voltages (frame_time in_ frame)
              (getGIDs in_) 0%nat tr) as (calls & Hrun & Hall).
  { intros i Hi. apply Hdef. lia. }
  exists calls. split; [|done].
  unfold run_frame. rewrite bool_decide_eq_false_2 by lia.
  assert (process_frame in_ frame tr = (Next (), tr ++ calls)) as Hp.
  { unfold process_frame. rewrite Hload. cbn [defined]. by rewrite run_ret_bind. }
  rewrite (run_bind_next _ _ _ _ _ Hp).
  destruct (bool_decide (getRank w = 0)); cbn [negb when].
  - rewrite run_ret_bind. unfold mret, Run_ret. by rewrite app_nil_r.
  - rewrite run_call_bind. unfold mret, Run_ret. by rewrite <- app_assoc.
Qed.

(** Rank 1 of 2 processes frame 0 of the sample report. *)
Lemma run_frame_writes_every_gid_witness :
  let w := {| getRank := 1; getSize := 2; MPI_Wait_status := wait_keeps_status;
              probes := []; inbox := [0; -1] |} in
  let s := {| requests := ∅; framesDone := 0; probes_left := []; inbox_left := [-1] |} in
  let voltages := Float32.of_Z <$> [10; 11; 12; 13] in
  ∃ calls,
    run_frame w sample_report 0 s [] =
      (Next (Continue,
             {| requests := requests s; framesDone := framesDone s + 1;
                probes_left := probes_left s; inbox_left := inbox_left s |}),
       [] ++ calls ++
         (if bool_decide (getRank w = 0) then []
          else [MPI_Isend 0 0 TAG_FRAME_DONE])) ∧
    Forall2 (λ '(i, gid) c,
               ∃ cv, c = writeFrame gid cv (frame_time sample_report 0) ∧
                     (cellVoltages voltages (getOffsets sample_report)
                                   (getCompartmentCounts sample_report) i).1
                       = Some cv)
            (zip (seq 0 (length (getGIDs sample_report))) (getGIDs sample_report))
            calls.
Proof.
  apply (run_frame_writes_every_gid
           {| getRank := 1; getSize := 2; MPI_Wait_status := wait_keeps_status;
              probes := []; inbox := [0; -1] |}
           sample_report 0
           {| requests := ∅; framesDone := 0; probes_left := []; inbox_left := [-1] |}
           (Float32.of_Z <$> [10; 11; 12; 13]) []);
    [lia | reflexivity |].
  intros [|[|i]] Hi; [by eexists | by eexists | cbn in Hi; lia].
Defined.

(** C1 as stated fails: rank 0 of 2, converting 3 frames of 2 neurons with no
    completion pending, processes frame 2 itself and calls [writeFrame] for
    GID 2, which it declared with [addGID] and not with
    [writeCompartments]. *)
Lemma unowned_gid_written :
  let in_ := uniform_report 2 (Float32.of_Z 0) (Float32.of_Z 3) (Float32.of_Z 1) in
  let w := {| getRank := 0; getSize := 2; MPI_Wait_status := wait_keeps_status;
              probes := []; inbox := [] |} in
  let tr := (main (command_line None false) in_ in_ w 0).2 in
  owners 2 in_ 2 = [1] ∧
  ¬ (∀ gid, writes_frame gid tr = true → writes_compartments gid tr = true).
Proof.
  split; [reflexivity|].
  intros H. specialize (H 2). vm_compute in H. by specialize (H eq_refl).
Qed.

(** ** The test for too many processes *)

Lemma preQueue_small n :
  0 ≤ n < 2 ^ 40 → preQueue n = Z.max 2 (n / 512).
Proof.
  intros H. unfold preQueue. rewrite Z.shiftr_div_pow2 by lia.
  change (2 ^ 9) with 512. rewrite to_int_small; [done|].
  assert (0 ≤ n `div` 512) by (apply Z.div_pos; lia).
  assert (n `div` 512 < 2 ^ 31) by (apply Z.div_lt_upper_bound; lia).
  lia.
Qed.

Lemma startFrame_small nRanks n :
  0 ≤ n < 2 ^ 40 → 1 ≤ nRanks →
  (nRanks - 1) * Z.max 2 (n / 512) < 2 ^ 31 →
  startFrame nRanks n = (nRanks - 1) * Z.max 2 (n / 512).
Proof.
  intros Hn HN Hlt. unfold startFrame. rewrite preQueue_small by done.
  assert (0 ≤ (nRanks - 1) * Z.max 2 (n `div` 512))
    by (apply Z.mul_nonneg_nonneg; lia).
  rewrite to_int_small by lia. apply to_size_t_small.
  unfold Machine.size_t_max. lia.
Qed.








(** ** Comparison of the frames *)

Lemma REQUIRE_run {B} (a : bool) (f : unit → Run B) tr :
  (REQUIRE a ≫= f) tr = if a then f () tr else (Stop (Exit EXIT_FAILURE), tr).
Proof. by destruct a. Qed.

Lemma REQUIRE_EQUAL_run {B} (differ : bool) (f : unit → Run B) tr :
  (REQUIRE_EQUAL differ ≫= f) tr =
    if differ then (Stop (Exit EXIT_FAILURE), tr) else f () tr.
Proof. by destruct differ. Qed.

(** The loop over the voltages of two frames that are long enough: it goes
    on when all voltages are equal and exits with [EXIT_FAILURE] at the
    first pair that differs. *)
Lemma compare_frames_run frame1 frame2 n : ∀ i tr,
  (i + n ≤ length frame1)%nat → (i + n ≤ length frame2)%nat →
  compare_frames frame1 frame2 n i tr =
    (if equal_at frame1 frame2 (seq i n) then Next () else Stop (Exit EXIT_FAILURE),
     tr).
Proof.
  induction n as [|n IH]; intros i tr H1 H2; [done|].
  destruct (lookup_lt_is_Some_2 frame1 i) as [a Ha]; [lia|].
  destruct (lookup_lt_is_Some_2 frame2 i) as [b Hb]; [lia|].
  cbn [compare_frames seq equal_at forallb]. rewrite Ha, Hb. cbn [defined].
  rewrite !run_ret_bind, REQUIRE_EQUAL_run. unfold Float32.neqb.
  destruct (Float32.eqb a b); cbn [negb andb]; [|done].
  apply IH; lia.
Qed.

(** The checks at one timestamp. *)
Lemma verify_frame_run in_ result t tr :
  (∀ frame, loadFrame in_ t = Some frame ∨ loadFrame result t = Some frame →
            getFrameSize in_ ≤ Z.of_nat (length frame)) →
  verify_frame in_ result t tr =
    (if frames_agree in_ result t then Next () else Stop (Exit EXIT_FAILURE), tr).
Proof.
  intros Hsize. unfold verify_frame, frames_agree.
  destruct (loadFrame in_ t) as [frame1|] eqn:H1; [|done].
  destruct (loadFrame result t) as [frame2|] eqn:H2; [|done].
  rewrite !REQUIRE_run, !bool_decide_eq_true_2 by (by eexists).
  change (default [] (Some frame1)) with frame1.
  change (default [] (Some frame2)) with frame2.
  pose proof (Hsize frame1 (or_introl eq_refl)).
  pose proof (Hsize frame2 (or_intror eq_refl)).
  rewrite compare_frames_run by lia. done.
Qed.

(** [==] on [float] in terms of the bits. *)
Lemma eqb_same_value a b : Float32.eqb a b = true ↔ same_value a b.
Proof.
  unfold same_value, Float32.eqb, SFeqb, SFcompare.
  destruct a as [[]|[]| |[] m1 e1], b as [[]|[]| |[] m2 e2].
  all: try (split; [discriminate
                   |intros [Hn [H|(s & s' & H1 & H2)]]; congruence]; fail).
  all: try (split; [intros _; split; [discriminate|by left]|done]; fail).
  all: try (split; [intros _; split; [discriminate|right; eauto]|done]; fail).
  all: change (Pos.compare_cont Eq m1 m2) with (Pos.compare m1 m2);
    destruct (Z.compare_spec e1 e2) as [He|He|He];
    [destruct (Pos.compare_spec m1 m2) as [Hm|Hm|Hm]|..]; cbn [CompOpp];
    (split; [intros H; first [discriminate H|split; [done|left; congruence]]
            |intros [Hn [H|(s & s' & H1 & H2)]]; [inversion H; subst; lia|done]]).
Qed.

(** What the checks at one timestamp require of the two reports. *)
Lemma frames_agree_iff in_ result t :
  frames_agree in_ result t = true ↔
  ∃ frame1 frame2,
    loadFrame in_ t = Some frame1 ∧ loadFrame result t = Some frame2 ∧
    ∀ i, (i < Z.to_nat (getFrameSize in_))%nat →
         ∃ a b, frame1 !! i = Some a ∧ frame2 !! i = Some b ∧ same_value a b.
Proof.
  unfold frames_agree.
  destruct (loadFrame in_ t) as [frame1|];
    [destruct (loadFrame result t) as [frame2|]|];
    try (split; [done|by intros (g1 & g2 & H1 & H2 & _)]).
  unfold equal_at. rewrite List.forallb_forall. split.
  - intros H. exists frame1, frame2. split_and!; try done. intros i Hi.
    specialize (H i). rewrite List.in_seq in H.
    destruct (frame1 !! i) as [a|], (frame2 !! i) as [b|];
      try (by discriminate H; lia).
    exists a, b. split_and!; try done. apply eqb_same_value, H. lia.
  - intros (g1 & g2 & H1 & H2 & H) i Hin%List.in_seq.
    inversion H1; inversion H2; subst.
    destruct (H i) as (a & b & -> & -> & Hsv); [lia|].
    by apply eqb_same_value.
Qed.

(** Every timestamp the loop reaches is below [end_]. *)
Lemma visited_below_end end_ step fuel : ∀ t,
  Forall (λ t', Float32.ltb t' end_ = true) (visited end_ step fuel t).1.
Proof.
  induction fuel as [|fuel IH]; intros t; cbn [visited];
    destruct (Float32.ltb t end_) eqn:Hlt; cbn [fst]; try done.
  by constructor.
Qed.

(** A loop that has left [t < end_] within [fuel] steps does the same with
    more fuel. *)
Lemma visited_more_fuel end_ step fuel : ∀ t fuel',
  (visited end_ step fuel t).2 = true → (fuel ≤ fuel')%nat →
  visited end_ step fuel' t = visited end_ step fuel t.
Proof.
  induction fuel as [|fuel IH]; intros t fuel' Hfin Hle; cbn [visited] in *;
    destruct (Float32.ltb t end_) eqn:Hlt; try done.
  - destruct fuel'; cbn [visited]; by rewrite Hlt.
  - destruct fuel' as [|fuel']; [lia|]. cbn [visited]. rewrite Hlt.
    rewrite (IH _ fuel') by (done || lia). done.
  - destruct fuel'; cbn [visited]; by rewrite Hlt.
Qed.

(** Where [t += step] leaves [t] as it is, below [end_], the loop stays at
    [t]. *)
Lemma visited_stall end_ step t :
  Float32.ltb t end_ = true → Float32.add t step = t →
  ∀ fuel, visited end_ step fuel t = (replicate fuel t, false).
Proof.
  intros Hlt Hadd. induction fuel as [|fuel IH]; cbn [visited]; rewrite Hlt;
    [done|]. by rewrite Hadd, IH.
Qed.

(** [timestamps] gives the timestamps of a loop that ends within the
    fuel. *)
Lemma timestamps_visited end_ step fuel : ∀ t ts,
  timestamps end_ step fuel t = Some ts ↔ visited end_ step fuel t = (ts, true).
Proof.
  induction fuel as [|fuel IH]; intros t ts; cbn [timestamps visited];
    destruct (Float32.ltb t end_) eqn:Hlt;
    try (split; intros H; by inversion H).
  specialize (IH (Float32.add t step)).
  destruct (timestamps end_ step fuel (Float32.add t step)) as [ts'|];
    destruct (visited end_ step fuel (Float32.add t step)) as [ts'' fin];
    cbn [fmap option_fmap option_map fst snd].
  - split; intros H; inversion H; subst.
    + pose proof (proj1 (IH ts') eq_refl) as Heq. by inversion Heq.
    + pose proof (proj2 (IH ts'') eq_refl) as Heq. by inversion Heq.
  - split; intros H; inversion H; subst.
    pose proof (proj2 (IH ts'') eq_refl) as Heq. by inversion Heq.
Qed.

(** The loop over the timestamps, whatever the fuel: it exits with
    [EXIT_FAILURE] at the first timestamp it reaches where the frames do not
    agree; otherwise it goes on when it has left [t < end_] and is out of
    fuel when it has not. *)
Lemma verify_frames_visited in_ result end_ step fuel : ∀ t tr,
  (∀ t' frame, t' ∈ (visited end_ step fuel t).1 →
     loadFrame in_ t' = Some frame ∨ loadFrame result t' = Some frame →
     getFrameSize in_ ≤ Z.of_nat (length frame)) →
  verify_frames in_ result end_ step fuel t tr =
    (if forallb (frames_agree in_ result) (visited end_ step fuel t).1
     then (if (visited end_ step fuel t).2 then Next () else Stop OutOfFuel)
     else Stop (Exit EXIT_FAILURE), tr).
Proof.
  induction fuel as [|fuel IH]; intros t tr Hsize;
    cbn [visited verify_frames] in *;
    destruct (Float32.ltb t end_) eqn:Hlt; try done.
  cbn [fst snd forallb] in *.
  unfold mbind, Run_bind.
  rewrite verify_frame_run by (intros frame; apply Hsize; by left).
  destruct (frames_agree in_ result t); cbn [andb]; [|done].
  apply IH. intros t' frame Hin. apply Hsize. by right.
Qed.

(** C9 (as amended): the loop [for( float t = start; t < end; t += step )]
    of the comparison, for any number [fuel] of steps, on reports whose
    frames hold [frameSize] voltages at least. Every timestamp it reaches is
    below [end]. At the first one where a report has no frame or where two
    of the first [frameSize] voltages differ under [!=] of [float], it ends
    the process with [EXIT_FAILURE], which is not zero; the comparison is
    that of IEEE, without tolerance: two voltages agree when the first is no
    NaN and they are the same [float] or two zeros. When all reached frames
    agree, the loop goes on once [t < end] is false, and with more fuel it
    reaches the same timestamps with the same result. Where [t += step] does
    not change [t] below [end], the loop stays at [t] and does not end. It
    makes no call on writer or MPI. *)
Theorem verify_frames_checks_every_timestamp
    (in_ result : CompartmentReport) (end_ step : float) (fuel : nat)
    (t : float) (tr : list Call) :
  (∀ t' frame, t' ∈ (visited end_ step fuel t).1 →
     loadFrame in_ t' = Some frame ∨ loadFrame result t' = Some frame →
     getFrameSize in_ ≤ Z.of_nat (length frame)) →
  let ts := (visited end_ step fuel t).1 in
  let finished := (visited end_ step fuel t).2 in
  Forall (λ t', Float32.ltb t' end_ = true) ts ∧
  EXIT_FAILURE ≠ 0 ∧
  verify_frames in_ result end_ step fuel t tr =
    (if forallb (frames_agree in_ result) ts
     then (if finished then Next () else Stop OutOfFuel)
     else Stop (Exit EXIT_FAILURE), tr) ∧
  (finished = true →
   ∀ fuel', (fuel ≤ fuel')%nat → visited end_ step fuel' t = (ts, true)) ∧
  (Float32.ltb t end_ = true → Float32.add t step = t →
   ts = replicate fuel t ∧ finished = false) ∧
  (∀ t', frames_agree in_ result t' = true ↔
     ∃ frame1 frame2,
       loadFrame in_ t' = Some frame1 ∧ loadFrame result t' = Some frame2 ∧
       ∀ i, (i < Z.to_nat (getFrameSize in_))%nat →
            ∃ a b, frame1 !! i = Some a ∧ frame2 !! i = Some b ∧
                   same_value a b).
Proof.
  intros Hsize ts finished. split_and!; [| | | | |apply frames_agree_iff].
  - apply visited_below_end.
  - done.
  - by apply verify_frames_visited.
  - intros Hfin fuel' Hle. rewrite (visited_more_fuel _ _ fuel) by done.
    subst ts finished. destruct (visited end_ step fuel t) as [ts' fin].
    cbn in *. by subst fin.
  - intros Hlt Hadd. subst ts finished.
    by rewrite (visited_stall _ _ _ Hlt Hadd).
Qed.

(** The three timestamps of the sample report, compared with itself. *)
Lemma verify_frames_checks_every_timestamp_witness :
  let end_ := Float32.of_Z 3 in
  let step := Float32.of_Z 1 in
  let t := Float32.of_Z 0 in
  let ts := (visited end_ step 5 t).1 in
  let finished := (visited end_ step 5 t).2 in
  Forall (λ t', Float32.ltb t' end_ = true) ts ∧
  EXIT_FAILURE ≠ 0 ∧
  verify_frames sample_report sample_report end_ step 5 t [] =
    (if forallb (frames_agree sample_report sample_report) ts
     then (if finished then Next () else Stop OutOfFuel)
     else Stop (Exit EXIT_FAILURE), []) ∧
  (finished = true →
   ∀ fuel', (5 ≤ fuel')%nat → visited end_ step fuel' t = (ts, true)) ∧
  (Float32.ltb t end_ = true → Float32.add t step = t →
   ts = replicate 5 t ∧ finished = false) ∧
  (∀ t', frames_agree sample_report sample_report t' = true ↔
     ∃ frame1 frame2,
       loadFrame sample_report t' = Some frame1 ∧
       loadFrame sample_report t' = Some frame2 ∧
       ∀ i, (i < Z.to_nat (getFrameSize sample_report))%nat →
            ∃ a b, frame1 !! i = Some a ∧ frame2 !! i = Some b ∧
                   same_value a b).
Proof.
  apply (verify_frames_checks_every_timestamp
           sample_report sample_report (Float32.of_Z 3) (Float32.of_Z 1) 5
           (Float32.of_Z 0) []).
  intros t' frame _ [H|H]; inversion H; cbn; lia.
Defined.

(** The timestamps of the sample report are 0, 1 and 2, and the loop ends
    within 5 steps. *)
Example sample_report_visited :
  visited (Float32.of_Z 3) (Float32.of_Z 1) 5 (Float32.of_Z 0)
    = (Float32.of_Z <$> [0; 1; 2], true).
Proof. reflexivity. Qed.

(** C9 as stated fails: the comparison is [!=] of [float] and not that of
    the bits. A written report whose frames hold [-0] where the input has
    [+0] passes the loop, and [main --compare] returns [EXIT_SUCCESS]; a
    report whose frames hold a NaN fails the loop against itself. *)
Lemma compare_is_not_bit_exact :
  let zero := S754_zero false in
  let minus_zero := S754_zero true in
  let rest := Float32.of_Z <$> [11; 12; 13] in
  let in_ := with_frame sample_report (zero :: rest) in
  let result := with_frame sample_report (minus_zero :: rest) in
  let nan := with_frame sample_report (S754_nan :: rest) in
  let t := Float32.of_Z 0 in
  zero ≠ minus_zero ∧
  loadFrame in_ t ≠ loadFrame result t ∧
  verify_frames in_ result (Float32.of_Z 3) (Float32.of_Z 1) 5 t []
    = (Next (), []) ∧
  (main (command_line None true) in_ result single_process 5).1
    = Exit EXIT_SUCCESS ∧
  loadFrame nan t = loadFrame nan t ∧
  verify_frames nan nan (Float32.of_Z 3) (Float32.of_Z 1) 5 t []
    = (Stop (Exit EXIT_FAILURE), []).
Proof. cbn zeta. split_and!; try done; by vm_compute. Qed.

(** From [2^24] with a step of 1 the time does not advance in single
    precision ([2^24 + 1] rounds to [2^24]): with any number of steps the
    loop towards [2^24 + 2] is still at [2^24]. *)
Example verify_never_ends_when_time_stalls (fuel : nat) :
  let t := Float32.of_Z (2 ^ 24) in
  let end_ := Float32.of_Z (2 ^ 24 + 2) in
  Float32.add t (Float32.of_Z 1) = t ∧
  verify_frames sample_report sample_report end_ (Float32.of_Z 1) fuel t []
    = (Stop OutOfFuel, []).
Proof.
  intros t end_. split; [reflexivity|].
  rewrite verify_frames_visited.
  - rewrite (visited_stall end_ (Float32.of_Z 1) t) by reflexivity.
    cbn [fst snd].
    replace (forallb (frames_agree sample_report sample_report)
                     (replicate fuel t)) with true; [done|].
    induction fuel as [|fuel IH]; [done|]. cbn [replicate forallb].
    by rewrite <- IH.
  - intros t' frame _ [H|H]; inversion H; cbn; lia.
Qed.

(** [main --compare] on the sample report in a single process: it returns
    [EXIT_SUCCESS] when the written report loads the same frames and
    [EXIT_FAILURE] when one voltage differs. *)
Example compare_same_and_altered :
  (main (command_line None true) sample_report sample_report single_process 5).1
    = Exit EXIT_SUCCESS ∧
  (main (command_line None true) sample_report altered_report single_process 5).1
    = Exit EXIT_FAILURE.
Proof. vm_compute. split; reflexivity. Qed.

(** ** A single process *)

(** In a world of one process the frame loop processes the loop indices in
    order, itself. *)
Lemma single_process_frame_loop w in_ :
  getRank w = 0 → getSize w = 1 →
  ∀ n i s tr,
    0 ≤ i → i + Z.of_nat n ≤ 2 ^ 31 →
    frame_loop w in_ n i s tr =
      match process_frames in_ (seqZ i (Z.of_nat n)) tr with
      | (Next _, tr') =>
          (Next {| requests := requests s;
                   framesDone := framesDone s + Z.of_nat n;
                   probes_left := probes_left s;
                   inbox_left := inbox_left s |}, tr')
      | (Stop o, tr') => (Stop o, tr')
      end.
Proof.
  intros Hrank Hsize.
  induction n as [|n IH]; intros i s tr Hi Hle.
  - cbn. destruct s. cbn. by rewrite Z.add_0_r.
  - rewrite (seqZ_cons i) by lia. cbn [frame_loop process_frames].
    unfold loop_body, run_frame.
    rewrite Hrank, Hsize, (bool_decide_eq_true_2 (0 = 0)) by done.
    rewrite (bool_decide_eq_false_2 (1 > 1)) by lia.
    rewrite to_int_small by lia. rewrite bool_decide_eq_false_2 by lia.
    cbn [negb when]. rewrite !run_bind_assoc.
    destruct (process_frame in_ i tr) as [[o|[]] tr1] eqn:Hp.
    { by rewrite !(run_bind_stop _ _ _ _ _ Hp). }
    rewrite !(run_bind_next _ _ _ _ _ Hp).
    rewrite run_bind_assoc, !run_ret_bind. cbn beta iota. rewrite IH by lia. cbn [requests framesDone probes_left inbox_left].
    replace (Z.pred (Z.of_nat (S n))) with (Z.of_nat n) by lia.
    replace (Z.succ i) with (i + 1) by lia.
    destruct (process_frames in_ (seqZ (i + 1) (Z.of_nat n)) tr1) as [[o|[]] tr2];
      [done|].
    do 3 f_equal. lia.
Qed.

(** The part of C5 on a single process: with [N = 1] rank 0 processes the
    frames [0, nFrames) in order in the one frame loop, then calls [flush];
    it sends no message, and [framesDone] is [nFrames]. *)
Lemma single_process_converts_all_frames w in_ n tr :
  getRank w = 0 → getSize w = 1 → 0 ≤ n ≤ 2 ^ 31 →
  convert w in_ n tr =
    match process_frames in_ (seqZ 0 n) tr with
    | (Next _, tr') => (Next n, tr' ++ [flush])
    | (Stop o, tr') => (Stop o, tr')
    end.
Proof.
  intros Hrank Hsize Hn. unfold convert. rewrite Hrank, Hsize.
  rewrite (bool_decide_eq_true_2 (0 = 0)) by done.
  change (prequeued 1 (preQueue n)) with (@nil (Z * Z)).
  change (stop_frames 1) with (@nil (Z * Z)).
  assert (startFrame 1 n = 0) as -> by (unfold startFrame; by rewrite Z.mul_0_l).
  cbn [send_frames]. rewrite run_ret_bind, Z.sub_0_r.
  pose proof (single_process_frame_loop w in_ Hrank Hsize (Z.to_nat n) 0
                {| requests := ∅; framesDone := 0;
                   probes_left := probes w; inbox_left := inbox w |} tr) as Hloop.
  rewrite Z2Nat.id in Hloop by lia. specialize (Hloop ltac:(lia) ltac:(lia)).
  destruct (process_frames in_ (seqZ 0 n) tr) as [[o|[]] tr'].
  { by rewrite (run_bind_stop _ _ _ _ _ Hloop). }
  rewrite (run_bind_next _ _ _ _ _ Hloop).
  cbn [requests framesDone]. rewrite run_ret_bind, run_call_bind.
  unfold mret, Run_ret. do 2 f_equal.
Qed.

(** * Further properties of the converter *)

(** ** The comparison *)

Lemma Z_differ_decide a b : Z_differ a b = negb (bool_decide (a = b)).
Proof.
  unfold Z_differ. destruct (Z.eqb_spec a b).
  - by rewrite bool_decide_eq_true_2.
  - by rewrite bool_decide_eq_false_2.
Qed.

Lemma string_differ_decide a b : string_differ a b = negb (bool_decide (a = b)).
Proof.
  unfold string_differ. destruct (String.eqb_spec a b).
  - by rewrite bool_decide_eq_true_2.
  - by rewrite bool_decide_eq_false_2.
Qed.

Lemma string_nonempty_decide a : negb (String.eqb a "") = bool_decide (a ≠ "").
Proof.
  destruct (String.eqb_spec a "").
  - by rewrite bool_decide_eq_false_2 by (intros H; by apply H).
  - by rewrite bool_decide_eq_true_2.
Qed.

Lemma length_differ_decide {A} (a b : list A) :
  negb (length a =? length b)%nat = negb (bool_decide (length a = length b)).
Proof.
  destruct (Nat.eqb_spec (length a) (length b)).
  - by rewrite bool_decide_eq_true_2.
  - by rewrite bool_decide_eq_false_2.
Qed.

Lemma requireEqualCollections_check {A} (differ : A → A → bool) (a b : list A)
    (tr : list Call) :
  requireEqualCollections differ a b tr =
    (if bool_decide (Forall2 (λ x y, differ x y = false) a b)
     then Next () else Stop (Exit EXIT_FAILURE), tr).
Proof.
  revert b tr. induction a as [|x a IH]; intros [|y b] tr; cbn.
  - by rewrite bool_decide_eq_true_2.
  - rewrite bool_decide_eq_false_2; [done|]. intros H. inversion H.
  - rewrite bool_decide_eq_false_2; [done|]. intros H. inversion H.
  - rewrite REQUIRE_EQUAL_run. destruct (differ x y) eqn:Hd.
    + rewrite bool_decide_eq_false_2; [done|].
      intros H. inversion H; subst. congruence.
    + rewrite IH. case_bool_decide as Hall.
      * by rewrite bool_decide_eq_true_2 by (by constructor).
      * rewrite bool_decide_eq_false_2; [done|].
        intros H. inversion H; subst. done.
Qed.

(** [requireEqualCollections] goes on exactly when the two collections have
    the same number of elements and no pair of elements at the same position
    differs; otherwise (a pair differs, or one collection ends before the
    other) it exits with [EXIT_FAILURE]. Either way it makes no call. *)
Theorem requireEqualCollections_passes_iff {A} (differ : A → A → bool)
    (a b : list A) (tr : list Call) :
  (requireEqualCollections differ a b tr = (Next (), tr) ↔
   length a = length b ∧
   ∀ i x y, a !! i = Some x → b !! i = Some y → differ x y = false) ∧
  (requireEqualCollections differ a b tr = (Next (), tr) ∨
   requireEqualCollections differ a b tr = (Stop (Exit EXIT_FAILURE), tr)).
Proof.
  rewrite requireEqualCollections_check. split.
  - rewrite <- Forall2_same_length_lookup. case_bool_decide; split; done.
  - case_bool_decide; auto.
Qed.

(** On integers: the collections pass exactly when they are equal. *)
Lemma requireEqualCollections_Z (a b : list Z) tr :
  requireEqualCollections Z_differ a b tr =
    (if bool_decide (a = b) then Next () else Stop (Exit EXIT_FAILURE), tr).
Proof.
  rewrite requireEqualCollections_check.
  assert (Forall2 (λ x y, Z_differ x y = false) a b ↔ a = b) as Hiff.
  { split.
    - induction 1 as [|x y a b Hd _ IH]; [done|]. subst.
      rewrite Z_differ_decide in Hd. apply negb_false_iff in Hd.
      f_equal. by apply bool_decide_eq_true_1 in Hd.
    - intros ->. induction b as [|y b IH]; constructor; [|done].
      rewrite Z_differ_decide. by rewrite bool_decide_eq_true_2. }
  by rewrite (bool_decide_ext _ _ Hiff).
Qed.

(** A check followed by the rest of the run. *)
Lemma run_bind_check {B} (m : Run unit) (c : bool) (f : unit → Run B) tr :
  m tr = (if c then Next () else Stop (Exit EXIT_FAILURE), tr) →
  (m ≫= f) tr = if c then f () tr else (Stop (Exit EXIT_FAILURE), tr).
Proof.
  intros H. unfold mbind, Run_bind. rewrite H. by destruct c.
Qed.

Lemma require_offsets_sane_run frameSize offsets1_i tr :
  require_offsets_sane frameSize offsets1_i tr =
    (if forallb (λ offset, (offset <? frameSize) || (offset =? Machine.size_t_max))
                offsets1_i
     then Next () else Stop (Exit EXIT_FAILURE), tr).
Proof.
  induction offsets1_i as [|offset rest IH]; [done|].
  cbn [require_offsets_sane forallb]. rewrite REQUIRE_run.
  by destruct ((offset <? frameSize) || (offset =? Machine.size_t_max)).
Qed.

(** The loop over the neurons of [offsets1], once the two tables are known
    to have as many neurons: it goes on exactly when the tables are equal
    and every offset is below [frameSize] or the sentinel. *)
Lemma verify_offsets_run frameSize offsets2 : ∀ offsets1 i tr,
  length offsets1 = length (drop i offsets2) →
  verify_offsets frameSize offsets1 offsets2 i tr =
    (if bool_decide (offsets1 = drop i offsets2) && offsets_sane frameSize offsets1
     then Next () else Stop (Exit EXIT_FAILURE), tr).
Proof.
  induction offsets1 as [|row rest IH]; intros i tr Hlen.
  - destruct (drop i offsets2); [|done]. cbn.
    by rewrite bool_decide_eq_true_2.
  - destruct (drop i offsets2) as [|row2 rest2] eqn:Hdrop; [done|].
    assert (offsets2 !! i = Some row2) as Hi.
    { rewrite <- (Nat.add_0_r i), <- lookup_drop, Hdrop. done. }
    assert (drop (S i) offsets2 = rest2) as Hrest.
    { rewrite (drop_S _ _ _ Hi) in Hdrop. by inversion Hdrop. }
    cbn [verify_offsets]. rewrite Hi. cbn [defined]. rewrite run_ret_bind.
    rewrite (run_bind_check _ _ _ _ (requireEqualCollections_Z row row2 tr)).
    case_bool_decide as Hrow.
    + subst row2.
      rewrite (run_bind_check _ _ _ _ (require_offsets_sane_run frameSize row tr)).
      unfold offsets_sane at 1. cbn [forallb]. fold (offsets_sane frameSize rest).
      destruct (forallb _ row); cbn [andb].
      * rewrite IH by (rewrite Hrest; cbn in Hlen; lia). rewrite Hrest.
        destruct (decide (rest = rest2)) as [->|Hne].
        -- by rewrite !bool_decide_eq_true_2.
        -- rewrite !bool_decide_eq_false_2; [done| |done]. congruence.
      * by rewrite andb_false_r.
    + rewrite bool_decide_eq_false_2; [done|]. congruence.
Qed.

(** The loop over the timestamps, as in C9, for the use of the lemmas
    below. *)
Lemma verify_frames_run in_ result end_ step : ∀ fuel t ts tr,
  timestamps end_ step fuel t = Some ts →
  (∀ t' frame, t' ∈ ts →
     loadFrame in_ t' = Some frame ∨ loadFrame result t' = Some frame →
     getFrameSize in_ ≤ Z.of_nat (length frame)) →
  verify_frames in_ result end_ step fuel t tr =
    (if forallb (frames_agree in_ result) ts
     then Next () else Stop (Exit EXIT_FAILURE), tr).
Proof.
  induction fuel as [|fuel IH]; intros t ts tr Hts Hsize;
    cbn [timestamps verify_frames] in *;
    destruct (Float32.ltb t end_) eqn:Hlt; try done;
    try (by inversion Hts; subst).
  destruct (timestamps end_ step fuel (Float32.add t step)) as [ts'|] eqn:Hts';
    [|done].
  inversion Hts; subst ts. clear Hts.
  rewrite (run_bind_check _ (frames_agree in_ result t));
    [|apply verify_frame_run; intros frame; apply Hsize; by left].
  cbn [forallb]. destruct (frames_agree in_ result t); cbn [andb]; [|done].
  apply IH; [done|]. intros t' frame Hin. apply Hsize. by right.
Qed.

(** The whole comparison in one condition: when stepping from [start]
    leaves [t < end] within the fuel, after the timestamps [ts], and the
    frames loaded there hold [frameSize] voltages, [--compare] goes on
    exactly when start, end and step compare equal, frame size, GIDs and
    units are equal, the units are not empty, the offset and count tables
    have as many neurons, the offset tables are equal, every offset is below
    the frame size or the sentinel, and the frames agree at every timestamp.
    In every other case it exits with [EXIT_FAILURE]. The counts themselves
    are not compared. *)
Theorem verify_passes_iff_reports_agree
    (in_ result : CompartmentReport) (start end_ step : float) (fuel : nat)
    (ts : list float) (tr : list Call) :
  timestamps end_ step fuel start = Some ts →
  (∀ t' frame, t' ∈ ts →
     loadFrame in_ t' = Some frame ∨ loadFrame result t' = Some frame →
     getFrameSize in_ ≤ Z.of_nat (length frame)) →
  verify in_ result start end_ step fuel tr =
    (if reports_agree in_ result ts then Next () else Stop (Exit EXIT_FAILURE), tr).
Proof.
  intros Hts Hsize. unfold verify, reports_agree.
  rewrite ?REQUIRE_EQUAL_run. unfold Float32.neqb.
  destruct (Float32.eqb (getStartTime in_) (getStartTime result));
    cbn [negb andb]; [|done].
  rewrite ?REQUIRE_EQUAL_run.
  destruct (Float32.eqb (getEndTime in_) (getEndTime result));
    cbn [negb andb]; [|done].
  rewrite ?REQUIRE_EQUAL_run.
  destruct (Float32.eqb (getTimestep in_) (getTimestep result));
    cbn [negb andb]; [|done].
  rewrite ?REQUIRE_EQUAL_run, ?Z_differ_decide.
  destruct (bool_decide (getFrameSize in_ = getFrameSize result));
    cbn [negb andb]; [|done].
  rewrite (run_bind_check _ _ _ _ (requireEqualCollections_Z _ _ tr)).
  destruct (bool_decide (getGIDs in_ = getGIDs result)); cbn [andb]; [|done].
  rewrite ?REQUIRE_EQUAL_run, ?string_differ_decide.
  destruct (bool_decide (getDataUnit in_ = getDataUnit result));
    cbn [negb andb]; [|done].
  rewrite ?REQUIRE_EQUAL_run, ?string_differ_decide.
  destruct (bool_decide (getTimeUnit in_ = getTimeUnit result));
    cbn [negb andb]; [|done].
  rewrite ?REQUIRE_run, ?string_nonempty_decide.
  destruct (bool_decide (getDataUnit in_ ≠ "")); cbn [andb]; [|done].
  rewrite ?REQUIRE_run, ?string_nonempty_decide.
  destruct (bool_decide (getTimeUnit in_ ≠ "")); cbn [andb]; [|done].
  cbv zeta.
  rewrite ?REQUIRE_EQUAL_run, ?length_differ_decide.
  case_bool_decide as Hlen; cbn [negb andb]; [|done].
  rewrite ?REQUIRE_EQUAL_run, ?length_differ_decide.
  destruct (bool_decide (length (getCompartmentCounts in_)
                         = length (getCompartmentCounts result)));
    cbn [negb andb]; [|done].
  rewrite (run_bind_check _ _ _ _
             (verify_offsets_run _ _ _ 0%nat tr Hlen)).
  rewrite drop_0.
  destruct (bool_decide (getOffsets in_ = getOffsets result)); cbn [andb]; [|done].
  destruct (offsets_sane (getFrameSize in_) (getOffsets in_)); cbn [andb]; [|done].
  by apply verify_frames_run.
Qed.

(** The sample report compared with itself. *)
Lemma verify_passes_iff_reports_agree_witness :
  let ts := Float32.of_Z <$> [0; 1; 2] in
  verify sample_report sample_report (Float32.of_Z 0) (Float32.of_Z 3)
         (Float32.of_Z 1) 5 [] =
    (if reports_agree sample_report sample_report ts
     then Next () else Stop (Exit EXIT_FAILURE), []).
Proof.
  apply (verify_passes_iff_reports_agree
           sample_report sample_report (Float32.of_Z 0) (Float32.of_Z 3)
           (Float32.of_Z 1) 5 (Float32.of_Z <$> [0; 1; 2]) []);
    [reflexivity|].
  intros t' frame _ [H|H]; inversion H; cbn; lia.
Defined.

Lemma run_bind_ext {A B} (m : Run A) (f g : A → Run B) tr :
  (∀ a tr', f a tr' = g a tr') → (m ≫= f) tr = (m ≫= g) tr.
Proof.
  intros H. unfold mbind, Run_bind. by destruct (m tr) as [[o|a] tr'].
Qed.

(** The comparison reads the counts of the written report only for the
    number of neurons: a table of as many neurons with other counts gives
    the same result. *)
Theorem verify_ignores_counts
    (in_ result : CompartmentReport) (counts : CompartmentCounts)
    (start end_ step : float) (fuel : nat) (tr : list Call) :
  length counts = length (getCompartmentCounts result) →
  verify in_ (with_counts result counts) start end_ step fuel tr =
    verify in_ result start end_ step fuel tr.
Proof.
  intros Hlen. unfold verify. cbn [with_counts getStartTime getEndTime
    getTimestep getDataUnit getTimeUnit getGIDs getOffsets
    getCompartmentCounts getFrameSize].
  rewrite Hlen.
  assert (∀ fuel t tr,
            verify_frames in_ (with_counts result counts) end_ step fuel t tr
            = verify_frames in_ result end_ step fuel t tr) as Hframes.
  { clear. induction fuel as [|fuel IH]; intros t tr; [done|].
    cbn [verify_frames]. destruct (Float32.ltb t end_); [|done].
    unfold mbind, Run_bind.
    change (verify_frame in_ (with_counts result counts) t tr)
      with (verify_frame in_ result t tr).
    destruct (verify_frame in_ result t tr) as [[o|[]] tr']; [done|]. apply IH. }
  cbv zeta. repeat (apply run_bind_ext; intros [] ?). apply Hframes.
Qed.

(** The sample report against itself with counts [[5], [9, 9, 9]]. *)
Lemma verify_ignores_counts_witness :
  verify sample_report (with_counts sample_report [[5]; [9; 9; 9]])
         (Float32.of_Z 0) (Float32.of_Z 3) (Float32.of_Z 1) 5 [] =
    verify sample_report sample_report
           (Float32.of_Z 0) (Float32.of_Z 3) (Float32.of_Z 1) 5 [].
Proof.
  apply (verify_ignores_counts sample_report sample_report [[5]; [9; 9; 9]]
           (Float32.of_Z 0) (Float32.of_Z 3) (Float32.of_Z 1) 5 []).
  reflexivity.
Defined.

(** [main --compare] returns [EXIT_SUCCESS] for a written report whose
    counts differ from those of the input. *)
Example compare_passes_with_other_counts :
  (main (command_line None true) sample_report
        (with_counts sample_report [[5]; [9; 9; 9]]) single_process 5).1
    = Exit EXIT_SUCCESS.
Proof. reflexivity. Qed.

(** ** Which calls a piece of [main] makes *)

Create HintDb emits discriminated.

Lemma emits_ret {A} P (a : A) : emits P (mret a).
Proof. intros tr. exists []. by rewrite app_nil_r. Qed.

Lemma emits_stop {A} P o : emits P (@stop A o).
Proof. intros tr. exists []. by rewrite app_nil_r. Qed.

Lemma emits_call (P : Call → Prop) c : P c → emits P (call c).
Proof. intros Hc tr. exists [c]. split; [done|]. by constructor. Qed.

Lemma emits_bind {A B} P (m : Run A) (f : A → Run B) :
  emits P m → (∀ a, emits P (f a)) → emits P (m ≫= f).
Proof.
  intros Hm Hf tr. destruct (Hm tr) as (calls & Htr & Hall).
  unfold mbind, Run_bind. destruct (m tr) as [[o|a] tr1]; cbn in *; subst.
  - by exists calls.
  - destruct (Hf a (tr ++ calls)) as (calls' & -> & Hall').
    exists (calls ++ calls'). rewrite app_assoc. split; [done|].
    by apply Forall_app.
Qed.

Lemma emits_defined {A} P (x : option A) : emits P (defined x).
Proof. destruct x; [apply emits_ret | apply emits_stop]. Qed.

Lemma emits_when P b m : emits P m → emits P (when b m).
Proof. destruct b; [done|]. intros _. apply emits_ret. Qed.

Lemma emits_REQUIRE P a : emits P (REQUIRE a).
Proof. destruct a; [apply emits_ret | apply emits_stop]. Qed.

Lemma emits_REQUIRE_EQUAL P a : emits P (REQUIRE_EQUAL a).
Proof. destruct a; [apply emits_stop | apply emits_ret]. Qed.

Lemma emits_mono {A} (P Q : Call → Prop) (m : Run A) :
  (∀ c, P c → Q c) → emits P m → emits Q m.
Proof.
  intros HPQ Hm tr. destruct (Hm tr) as (calls & Htr & Hall).
  exists calls. split; [done|]. by eapply Forall_impl.
Qed.

#[local] Hint Resolve emits_ret emits_stop emits_call emits_defined emits_when
  emits_REQUIRE emits_REQUIRE_EQUAL : emits.
#[local] Hint Extern 2 (emits _ (_ ≫= _)) => apply emits_bind; [|intros] : emits.
#[local] Hint Extern 1 (is_gid_call _) => exact I : emits.
#[local] Hint Extern 1 (is_writeFrame _) => exact I : emits.
#[local] Hint Extern 1 (is_frame_send _) => exact I : emits.
#[local] Hint Extern 1 (is_frame_call _) => exact I : emits.

Lemma emits_silent {A} (m : Run A) : emits (λ _, False) m → silent m.
Proof.
  intros Hm tr. destruct (Hm tr) as ([|c calls] & -> & Hall).
  - by rewrite app_nil_r.
  - by inversion Hall.
Qed.

Lemma emits_requireEqualCollections {A} P (differ : A → A → bool) a b :
  emits P (requireEqualCollections differ a b).
Proof.
  revert b. induction a as [|x a IH]; intros [|y b]; cbn; auto with emits.
Qed.

Lemma emits_require_offsets_sane P frameSize row :
  emits P (require_offsets_sane frameSize row).
Proof. induction row; cbn; auto with emits. Qed.

Lemma emits_verify_offsets P frameSize offsets2 offsets1 i :
  emits P (verify_offsets frameSize offsets1 offsets2 i).
Proof.
  revert i. induction offsets1; intros i; cbn;
    auto using emits_requireEqualCollections, emits_require_offsets_sane
      with emits.
Qed.

Lemma emits_compare_frames P frame1 frame2 n i :
  emits P (compare_frames frame1 frame2 n i).
Proof. revert i. induction n; intros i; cbn; auto 10 with emits. Qed.

Lemma emits_verify_frames P in_ result end_ step fuel t :
  emits P (verify_frames in_ result end_ step fuel t).
Proof.
  revert t. induction fuel as [|fuel IH]; intros t; cbn;
    destruct (Float32.ltb t end_); unfold verify_frame;
    auto 10 using emits_compare_frames with emits.
Qed.

(** The comparison is read-only: whether it passes, fails or runs out of
    fuel, [--compare] makes no call on the writer and sends no message. *)
Theorem verify_makes_no_call
    (in_ result : CompartmentReport) (start end_ step : float) (fuel : nat) :
  silent (verify in_ result start end_ step fuel).
Proof.
  apply emits_silent. unfold verify.
  auto 20 using emits_requireEqualCollections, emits_verify_offsets,
    emits_verify_frames with emits.
Qed.

(** When the end time of the written report does not compare equal to the
    end time of the input, the comparison exits with [EXIT_FAILURE] before
    it looks at GIDs, layout or frames. *)
Lemma verify_fails_on_end_time in_ result start end_ step fuel tr :
  Float32.eqb (getEndTime in_) (getEndTime result) = false →
  verify in_ result start end_ step fuel tr = (Stop (Exit EXIT_FAILURE), tr).
Proof.
  intros Hend. unfold verify. rewrite !REQUIRE_EQUAL_run.
  unfold Float32.neqb. rewrite Hend.
  by destruct (Float32.eqb (getStartTime in_) (getStartTime result)).
Qed.

(** [--maxFrames] with [--compare]: the header of the written report gets
    the clamped end time, the comparison requires the end time of the input.
    When the conversion succeeds and the written report gives back the end
    time of its header, which does not compare equal to the end time of the
    input, [main] ends with [EXIT_FAILURE] although every frame was
    written. *)
Theorem compare_fails_after_clamping
    (vm : Options) (in_ result : CompartmentReport) (w : World) (fuel : nat)
    (frames done : Z) (tr tr' : list Call) :
  opt_compare vm = true →
  convert w in_ frames tr = (Next done, tr') →
  getEndTime result = clamped_end vm in_ →
  Float32.eqb (getEndTime in_) (clamped_end vm in_) = false →
  conversion vm in_ result w fuel frames tr = (Stop (Exit EXIT_FAILURE), tr').
Proof.
  intros Hcmp Hconv Hres Hend. unfold conversion.
  rewrite (run_bind_next _ _ _ _ _ Hconv), Hcmp. cbn [when].
  rewrite <- Hres in Hend.
  by rewrite (run_bind_stop _ _ _ _ _
                (verify_fails_on_end_time _ _ _ _ _ _ _ Hend)).
Qed.

(** 10 frames of which [--maxFrames 4] converts 4, in a single process. *)
Lemma compare_fails_after_clamping_witness :
  let in_ := uniform_report 1 (Float32.of_Z 0) (Float32.of_Z 10) (Float32.of_Z 1) in
  let result := uniform_report 1 (Float32.of_Z 0) (Float32.of_Z 4) (Float32.of_Z 1) in
  let vm := command_line (Some 4) true in
  conversion vm in_ result single_process 9 4 [] =
    (Stop (Exit EXIT_FAILURE), (convert single_process in_ 4 []).2) ∧
  length (frame_writes (convert single_process in_ 4 []).2) = 4%nat ∧
  (main vm in_ result single_process 9).1 = Exit EXIT_FAILURE.
Proof.
  split; [|split; reflexivity].
  apply (compare_fails_after_clamping
           (command_line (Some 4) true)
           (uniform_report 1 (Float32.of_Z 0) (Float32.of_Z 10) (Float32.of_Z 1))
           (uniform_report 1 (Float32.of_Z 0) (Float32.of_Z 4) (Float32.of_Z 1))
           single_process 9 4 4 []); reflexivity.
Defined.

(** ** The layout phase *)

Lemma layout_loop_run first last counts : ∀ gids index tr,
  (index + length gids ≤ length counts)%nat →
  layout_loop first last counts gids index tr =
    (Next (),
     tr ++ zip_with (layout_call first last counts) (seq index (length gids)) gids).
Proof.
  induction gids as [|gid gids IH]; intros index tr Hlen.
  - cbn. by rewrite app_nil_r.
  - cbn [layout_loop length seq zip_with]. cbn [length] in Hlen.
    unfold layout_call at 1.
    destruct (Z.ltb_spec (Z.of_nat index) first);
      destruct (Z.geb_spec (Z.of_nat index) last); cbn [orb];
      try (rewrite bool_decide_eq_false_2 by lia;
           rewrite run_call_bind, IH by lia; by rewrite <- app_assoc).
    rewrite bool_decide_eq_true_2 by lia.
    destruct (lookup_lt_is_Some_2 counts index) as [c Hc]; [lia|].
    rewrite Hc. cbn [defined default from_option].
    rewrite run_bind_assoc, run_ret_bind, run_call_bind, IH by lia.
    by rewrite <- app_assoc.
Qed.

Lemma omap_cons' {A B} (f : A → option B) x l :
  omap f (x :: l) = match f x with Some y => y :: omap f l | None => omap f l end.
Proof. reflexivity. Qed.

Lemma layout_calls_gids first last counts gids : ∀ index,
  omap call_gid (zip_with (layout_call first last counts)
                          (seq index (length gids)) gids) = gids.
Proof.
  induction gids as [|gid gids IH]; intros index; [done|].
  cbn [length seq zip_with]. rewrite omap_cons', IH.
  unfold layout_call. by case_bool_decide.
Qed.

(** The layout phase of a rank whose range [first, last) is defined, for a
    report with counts for every GID: it makes one call per GID, in the
    order of the GIDs; the call for the GID at [index] is
    [writeCompartments( gid, counts[index] )] when [index] is in the range
    and [addGID( gid )] when it is not. *)
Theorem write_layout_one_call_per_gid
    (rank nRanks : Z) (in_ : CompartmentReport) (first last : Z) (tr : list Call) :
  startGID rank (range (Z.of_nat (length (getGIDs in_))) nRanks) = Some first →
  endGID rank (range (Z.of_nat (length (getGIDs in_))) nRanks) = Some last →
  (length (getGIDs in_) ≤ length (getCompartmentCounts in_))%nat →
  ∃ calls,
    write_layout rank nRanks in_ tr = (Next (), tr ++ calls) ∧
    omap call_gid calls = getGIDs in_ ∧
    length calls = length (getGIDs in_) ∧
    ∀ index gid,
      getGIDs in_ !! index = Some gid →
      calls !! index =
        Some (layout_call first last (getCompartmentCounts in_) index gid).
Proof.
  intros Hfirst Hlast Hlen. unfold write_layout. rewrite Hfirst, Hlast.
  cbn [defined]. rewrite !run_ret_bind, layout_loop_run by done.
  eexists. split; [done|]. split; [apply layout_calls_gids|]. split.
  - rewrite length_zip_with, length_seq. lia.
  - intros index gid Hin. rewrite lookup_zip_with, Hin.
    rewrite lookup_seq_lt by (by eapply lookup_lt_Some). done.
Qed.

(** Rank 0 of 2 on the sample report: range [0, 1). *)
Lemma write_layout_one_call_per_gid_witness :
  ∃ calls,
    write_layout 0 2 sample_report [] = (Next (), [] ++ calls) ∧
    omap call_gid calls = getGIDs sample_report ∧
    length calls = length (getGIDs sample_report) ∧
    ∀ index gid,
      getGIDs sample_report !! index = Some gid →
      calls !! index =
        Some (layout_call 0 1 (getCompartmentCounts sample_report) index gid).
Proof.
  apply (write_layout_one_call_per_gid 0 2 sample_report 0 1 []);
    [reflexivity | reflexivity | cbn; lia].
Defined.

(** ** Queueing of frames *)

(** The frames queued for one worker. *)
Lemma prequeued_worker (k Q : Z) : ∀ l : list Z,
  0 ≤ k → 0 < Q → (k + 1) * Q ≤ 2 ^ 31 →
  Forall (λ j, 0 ≤ j < Q) l →
  (l ≫= λ j, [(Machine.to_int (k * Q + j), k + 1)])
    = (λ f, (f, f / Q + 1)) <$> (Z.add (k * Q) <$> l).
Proof.
  intros l Hk HQ Hmax. induction 1 as [|j l Hj _ IH]; [done|].
  rewrite bind_cons, IH. cbn [fmap list_fmap app].
  assert (0 ≤ k * Q) by (apply Z.mul_nonneg_nonneg; lia).
  rewrite to_int_small by nia.
  replace ((k * Q + j) `div` Q) with k; [done|].
  rewrite Z.add_comm, Z.div_add by lia. rewrite Z.div_small by lia. lia.
Qed.

(** Before the frame loop rank 0 queues the frames [0, (N-1) * Q), each
    once and in ascending order; frame [f] goes to rank [f / Q + 1]. *)
Lemma prequeued_frames (nRanks Q : Z) :
  1 ≤ nRanks → 0 < Q → (nRanks - 1) * Q ≤ 2 ^ 31 →
  prequeued nRanks Q = (λ f, (f, f / Q + 1)) <$> seqZ 0 ((nRanks - 1) * Q).
Proof.
  intros HN HQ. unfold prequeued.
  rewrite <- (Z2Nat.id (nRanks - 1)) by lia.
  generalize (Z.to_nat (nRanks - 1)) as n. clear HN.
  induction n as [|n IH]; intros Hmax; [done|].
  assert (0 ≤ Z.of_nat n * Q) by (apply Z.mul_nonneg_nonneg; lia).
  rewrite seqZ_S, bind_app, IH by nia.
  replace (Z.of_nat (S n) * Q) with (Z.of_nat n * Q + Q) by lia.
  rewrite seqZ_app, fmap_app by lia. f_equal.
  cbn [mbind list_bind app]. rewrite app_nil_r.
  replace (1 + Z.of_nat n - 1) with (Z.of_nat n) by lia.
  replace (1 + Z.of_nat n) with (Z.of_nat n + 1) by lia.
  rewrite (prequeued_worker (Z.of_nat n) Q (seqZ 0 Q)); try lia.
  - rewrite fmap_add_seqZ. do 2 f_equal. lia.
  - apply Forall_seqZ. intros j Hj. lia.
Qed.

(** What [send_frames] sends and stores: a message per entry, in order, and
    for frames that are pairwise different a handle under each frame; the
    other keys of the map stay as they are. *)
Lemma send_frames_run : ∀ (sends_ : list (Z * Z)) (reqs : Requests) tr,
  NoDup sends_.*1 →
  ∃ reqs',
    send_frames sends_ reqs tr =
      (Next reqs', tr ++ ((λ fd, MPI_Isend fd.1 fd.2 TAG_FRAME) <$> sends_)) ∧
    (∀ f d, (f, d) ∈ sends_ → reqs' !! f = Some (frame_handle f d)) ∧
    (∀ f, f ∉ sends_.*1 → reqs' !! f = reqs !! f).
Proof.
  induction sends_ as [|[f0 d0] rest IH]; intros reqs tr Hnd.
  - exists reqs. cbn. rewrite app_nil_r. split; [done|]. split; [|done].
    intros f d Hin. by apply elem_of_nil in Hin.
  - cbn [fmap list_fmap fst] in Hnd. apply NoDup_cons in Hnd as [Hf0 Hnd].
    destruct (IH (<[f0 := frame_handle f0 d0]> reqs)
                 (tr ++ [MPI_Isend f0 d0 TAG_FRAME]) Hnd)
      as (reqs' & Hrun & Hin & Hout).
    exists reqs'. split; [|split].
    + cbn [send_frames].
      rewrite (run_bind_next _ _ _ _ _ (send_frame_run f0 f0 d0 reqs tr)).
      fold (frame_handle f0 d0). rewrite Hrun. cbn [fmap list_fmap fst snd].
      by rewrite <- app_assoc.
    + intros f d Hfd. apply elem_of_cons in Hfd as [Heq|Hfd].
      * inversion Heq; subst. rewrite (Hout _ Hf0). apply lookup_insert_eq.
      * by apply Hin.
    + intros f Hf. cbn [fmap list_fmap fst] in Hf.
      apply not_elem_of_cons in Hf as [Hne Hf].
      rewrite (Hout _ Hf). by apply lookup_insert_ne.
Qed.

(** The queueing phase of rank 0, for a world of [N >= 1] ranks and a queue
    depth [Q > 0] with [(N-1) * Q] an [int]: the frames [0, (N-1) * Q) are
    sent once each, in ascending order, frame [f] to rank [f / Q + 1], and
    afterwards [requests] holds a handle under every one of these frames and
    under no other key. *)
Theorem prequeue_queues_each_frame_once (nRanks Q : Z) (tr : list Call) :
  1 ≤ nRanks → 0 < Q → (nRanks - 1) * Q ≤ 2 ^ 31 →
  ∃ reqs : Requests,
    send_frames (prequeued nRanks Q) ∅ tr =
      (Next reqs,
       tr ++ ((λ f, MPI_Isend f (f / Q + 1) TAG_FRAME)
                <$> seqZ 0 ((nRanks - 1) * Q))) ∧
    ∀ f, reqs !! f =
         if bool_decide (0 ≤ f < (nRanks - 1) * Q)
         then Some (frame_handle f (f / Q + 1)) else None.
Proof.
  intros HN HQ Hmax. rewrite prequeued_frames by done.
  destruct (send_frames_run
              ((λ f, (f, f / Q + 1)) <$> seqZ 0 ((nRanks - 1) * Q)) ∅ tr)
    as (reqs & Hrun & Hin & Hout).
  { rewrite <- list_fmap_compose. cbn. rewrite list_fmap_id. apply NoDup_seqZ. }
  exists reqs. split.
  - rewrite Hrun. by rewrite <- list_fmap_compose.
  - intros f. case_bool_decide as Hf.
    + apply Hin. apply list_elem_of_fmap. exists f. split; [done|].
      apply elem_of_seqZ. lia.
    + rewrite Hout; [done|]. rewrite <- list_fmap_compose. cbn.
      rewrite list_fmap_id. rewrite elem_of_seqZ. lia.
Qed.

(** 3 ranks and a queue depth of 2. *)
Lemma prequeue_queues_each_frame_once_witness :
  ∃ reqs : Requests,
    send_frames (prequeued 3 2) ∅ [] =
      (Next reqs,
       [] ++ ((λ f, MPI_Isend f (f / 2 + 1) TAG_FRAME) <$> seqZ 0 ((3 - 1) * 2))) ∧
    ∀ f, reqs !! f =
         if bool_decide (0 ≤ f < (3 - 1) * 2)
         then Some (frame_handle f (f / 2 + 1)) else None.
Proof.
  apply (prequeue_queues_each_frame_once 3 2 []); lia.
Defined.

(** ** The frame loop of a worker *)

Lemma emits_write_cells in_ voltages t gids index :
  emits is_writeFrame (write_cells in_ voltages t gids index).
Proof.
  revert index. induction gids as [|gid gids IH]; intros index; cbn;
    auto 10 with emits.
Qed.

Lemma emits_process_frame in_ frame : emits is_writeFrame (process_frame in_ frame).
Proof. unfold process_frame. auto using emits_write_cells with emits. Qed.

(** Processing a frame either succeeds or is undefined (no frame at the
    time, or a vector that cannot be built); it never blocks or exits. *)
Lemma process_frame_result in_ frame tr :
  (process_frame in_ frame tr).1 = Next () ∨
  (process_frame in_ frame tr).1 = Stop Undefined.
Proof.
  unfold process_frame. destruct (loadFrame in_ _) as [voltages|]; [|by right].
  cbn [defined]. rewrite run_ret_bind.
  generalize 0%nat as index. generalize (getGIDs in_) as gids.
  revert tr. intros tr gids. revert tr.
  induction gids as [|gid gids IH]; intros tr index; [by left|].
  cbn [write_cells].
  destruct (cellVoltages voltages _ _ index).1 as [cv|]; [|by right].
  cbn [defined]. rewrite run_ret_bind, run_call_bind. apply IH.
Qed.

Lemma sends_app tr calls : sends (tr ++ calls) = sends tr ++ sends calls.
Proof. apply omap_app. Qed.

Lemma sends_writeFrames calls : Forall is_writeFrame calls → sends calls = [].
Proof.
  induction 1 as [|c calls Hc _ IH]; [done|]. by destruct c.
Qed.

Lemma frame_writes_app tr calls :
  frame_writes (tr ++ calls) = frame_writes tr ++ frame_writes calls.
Proof. apply omap_app. Qed.

(** The loop over [gids], when it goes on, has made one [writeFrame] call
    per GID at the time of the frame, in order, and nothing else. *)
Lemma write_cells_calls in_ voltages t : ∀ gids index tr tr',
  write_cells in_ voltages t gids index tr = (Next (), tr') →
  frame_writes tr' = frame_writes tr ++ ((λ gid, (gid, t)) <$> gids) ∧
  sends tr' = sends tr.
Proof.
  induction gids as [|gid gids IH]; intros index tr tr' Hrun.
  - inversion Hrun; subst. by rewrite app_nil_r.
  - cbn [write_cells] in Hrun.
    destruct (cellVoltages voltages _ _ index).1 as [cv|]; [|done].
    cbn [defined] in Hrun. rewrite run_ret_bind, run_call_bind in Hrun.
    apply IH in Hrun as [Hw Hs]. rewrite Hw, Hs, frame_writes_app, sends_app.
    cbn. by rewrite <- app_assoc, app_nil_r.
Qed.

Lemma process_frame_calls in_ frame tr tr' :
  process_frame in_ frame tr = (Next (), tr') →
  frame_writes tr' =
    frame_writes tr ++ ((λ gid, (gid, frame_time in_ frame)) <$> getGIDs in_) ∧
  sends tr' = sends tr.
Proof.
  unfold process_frame. destruct (loadFrame in_ _) as [voltages|]; [|done].
  cbn [defined]. rewrite run_ret_bind. apply write_cells_calls.
Qed.

(** The calls of [report_frames] when every frame could be processed. *)
Lemma report_frames_calls in_ : ∀ fs tr tr',
  report_frames in_ fs tr = (Next (), tr') →
  sends tr' = sends tr ++ ((λ f, (f, 0, TAG_FRAME_DONE)) <$> fs) ∧
  frame_writes tr' =
    frame_writes tr
    ++ (f ← fs; (λ gid, (gid, frame_time in_ f)) <$> getGIDs in_).
Proof.
  induction fs as [|f fs IH]; intros tr tr' Hrun.
  - inversion Hrun; subst. by rewrite !app_nil_r.
  - cbn [report_frames] in Hrun.
    destruct (process_frame in_ f tr) as [[o|[]] tr1] eqn:Hp.
    { by rewrite (run_bind_stop _ _ _ _ _ Hp) in Hrun. }
    rewrite (run_bind_next _ _ _ _ _ Hp), run_call_bind in Hrun.
    apply IH in Hrun as [Hs Hw].
    apply process_frame_calls in Hp as [Hw1 Hs1].
    rewrite Hs, Hw, sends_app, frame_writes_app, Hw1, Hs1.
    cbn. by rewrite !app_nil_r, <- !app_assoc.
Qed.

Lemma taken_prefix : ∀ n frames,
  taken n frames `prefix_of` frames ∧
  Forall (λ f, 0 ≤ f) (taken n frames) ∧
  (length (taken n frames) ≤ n)%nat.
Proof.
  induction n as [|n IH]; intros [|f rest]; cbn [taken];
    try (split_and!; [apply prefix_nil|done|cbn; lia]).
  case_bool_decide; [split_and!; [apply prefix_nil|done|cbn; lia]|].
  destruct (IH rest) as (Hpre & Hpos & Hlen).
  split_and!; [by apply prefix_cons|constructor; [lia|done]|cbn; lia].
Qed.

(** The loop takes frames until its indices are used up, a negative frame
    arrives or nothing is left to receive. *)
Lemma taken_ends : ∀ n frames,
  (if starves n frames
   then taken n frames = frames ∧ (length frames < n)%nat
   else length (taken n frames) = n ∧
        left_over n frames = drop n frames
        ∨ ∃ f, frames !! length (taken n frames) = Some f ∧ f < 0 ∧
               left_over n frames = drop (S (length (taken n frames))) frames).
Proof.
  induction n as [|n IH]; intros [|f rest]; cbn [taken starves left_over];
    try (left; by rewrite ?drop_0); try (split; [done|cbn; lia]).
  case_bool_decide as Hneg.
  { right. exists f. cbn. by rewrite drop_0. }
  specialize (IH rest). destruct (starves n rest).
  - destruct IH as [-> Hlen]. split; [done|cbn; lia].
  - destruct IH as [[Hlen Hleft]|(f' & Hf' & Hneg' & Hleft)].
    + left. cbn. by rewrite Hlen.
    + right. exists f'. cbn. by rewrite Hleft.
Qed.

(** The frame loop of a rank other than 0 in terms of the frames it takes
    from those it receives. *)
Lemma worker_frame_loop w in_ : getRank w ≠ 0 → ∀ n i s tr,
  frame_loop w in_ n i s tr =
    match report_frames in_ (taken n (inbox_left s)) tr with
    | (Stop o, tr') => (Stop o, tr')
    | (Next _, tr') =>
        if starves n (inbox_left s) then (Stop Blocked, tr')
        else (Next {| requests := requests s;
                      framesDone :=
                        framesDone s
                        + Z.of_nat (length (taken n (inbox_left s)));
                      probes_left := probes_left s;
                      inbox_left := left_over n (inbox_left s) |}, tr')
    end.
Proof.
  intros Hrank. induction n as [|n IH]; intros i s tr.
  { cbn. destruct s. cbn. by rewrite Z.add_0_r. }
  cbn [frame_loop]. unfold loop_body.
  rewrite bool_decide_eq_false_2 by done.
  destruct (inbox_left s) as [|f rest] eqn:Hinbox; [done|].
  cbn [taken starves left_over]. unfold run_frame.
  case_bool_decide as Hneg.
  { rewrite !run_ret_bind. cbn. by rewrite Z.add_0_r. }
  cbn [report_frames]. rewrite !run_bind_assoc.
  destruct (process_frame in_ f tr) as [[o|[]] tr1] eqn:Hp.
  { by rewrite !(run_bind_stop _ _ _ _ _ Hp). }
  rewrite !(run_bind_next _ _ _ _ _ Hp).
  rewrite (bool_decide_eq_false_2 (getRank w = 0)) by done.
  cbn [negb when].
  rewrite run_bind_assoc, !run_call_bind, !run_ret_bind. cbn beta iota.
  rewrite IH. cbn [requests framesDone probes_left inbox_left].
  destruct (report_frames in_ (taken n rest) _) as [[o|[]] tr2]; [done|].
  destruct (starves n rest); [done|].
  do 3 f_equal. cbn [length]. lia.
Qed.

(** The frame loop of a worker (any rank but 0) with [n] loop indices left.
    It takes the frames [fs] from those it receives: one per loop index, in
    the order received, up to the first negative one. Each of them it loads
    and writes, then reports to rank 0 with [TAG_FRAME_DONE], and goes no
    further when a frame cannot be processed. When every frame of [fs] was
    processed, the messages sent are those reports and the [writeFrame]
    calls are those of every GID at the time of each frame, in order. The
    loop then blocks if it comes to a receive with nothing left to receive;
    otherwise it ends with [framesDone] grown by the number of frames and
    with the received frames, the negative one included, gone from what is
    left to receive. [fs] ends where the loop indices are used up, before a
    negative frame or where nothing is left. *)
Theorem worker_reports_each_processed_frame
    (w : World) (in_ : CompartmentReport) (n : nat) (i : Z) (s : LoopState)
    (tr : list Call) :
  getRank w ≠ 0 →
  let fs := taken n (inbox_left s) in
  frame_loop w in_ n i s tr =
    match report_frames in_ fs tr with
    | (Stop o, tr') => (Stop o, tr')
    | (Next _, tr') =>
        if starves n (inbox_left s) then (Stop Blocked, tr')
        else (Next {| requests := requests s;
                      framesDone := framesDone s + Z.of_nat (length fs);
                      probes_left := probes_left s;
                      inbox_left := left_over n (inbox_left s) |}, tr')
    end ∧
  (∀ tr', report_frames in_ fs tr = (Next (), tr') →
     sends tr' = sends tr ++ ((λ f, (f, 0, TAG_FRAME_DONE)) <$> fs) ∧
     frame_writes tr' =
       frame_writes tr
       ++ (f ← fs; (λ gid, (gid, frame_time in_ f)) <$> getGIDs in_)) ∧
  fs `prefix_of` inbox_left s ∧
  Forall (λ f, 0 ≤ f) fs ∧
  (length fs ≤ n)%nat ∧
  (if starves n (inbox_left s)
   then fs = inbox_left s ∧ (length (inbox_left s) < n)%nat
   else length fs = n ∧ left_over n (inbox_left s) = drop n (inbox_left s)
        ∨ ∃ f, inbox_left s !! length fs = Some f ∧ f < 0 ∧
               left_over n (inbox_left s) = drop (S (length fs)) (inbox_left s)).
Proof.
  intros Hrank fs.
  destruct (taken_prefix n (inbox_left s)) as (Hpre & Hpos & Hlen).
  split_and!; try done.
  - by apply worker_frame_loop.
  - apply report_frames_calls.
  - apply taken_ends.
Qed.

(** Rank 1 of 2 receives frames 0 and 1 and the stop frame. *)
Lemma worker_reports_each_processed_frame_witness :
  let w := {| getRank := 1; getSize := 2; MPI_Wait_status := wait_keeps_status;
              probes := []; inbox := [0; 1; -1] |} in
  let s := {| requests := ∅; framesDone := 0; probes_left := [];
              inbox_left := [0; 1; -1] |} in
  let in_ := sample_report in
  let fs := taken 3 (inbox_left s) in
  frame_loop w in_ 3 2 s [] =
    match report_frames in_ fs [] with
    | (Stop o, tr') => (Stop o, tr')
    | (Next _, tr') =>
        if starves 3 (inbox_left s) then (Stop Blocked, tr')
        else (Next {| requests := requests s;
                      framesDone := framesDone s + Z.of_nat (length fs);
                      probes_left := probes_left s;
                      inbox_left := left_over 3 (inbox_left s) |}, tr')
    end ∧
  (∀ tr', report_frames in_ fs [] = (Next (), tr') →
     sends tr' = sends [] ++ ((λ f, (f, 0, TAG_FRAME_DONE)) <$> fs) ∧
     frame_writes tr' =
       frame_writes []
       ++ (f ← fs; (λ gid, (gid, frame_time in_ f)) <$> getGIDs in_)) ∧
  fs `prefix_of` inbox_left s ∧
  Forall (λ f, 0 ≤ f) fs ∧
  (length fs ≤ 3)%nat ∧
  (if starves 3 (inbox_left s)
   then fs = inbox_left s ∧ (length (inbox_left s) < 3)%nat
   else length fs = 3%nat ∧ left_over 3 (inbox_left s) = drop 3 (inbox_left s)
        ∨ ∃ f, inbox_left s !! length fs = Some f ∧ f < 0 ∧
               left_over 3 (inbox_left s) = drop (S (length fs)) (inbox_left s)).
Proof.
  apply (worker_reports_each_processed_frame
           {| getRank := 1; getSize := 2; MPI_Wait_status := wait_keeps_status;
              probes := []; inbox := [0; 1; -1] |}
           sample_report 3 2
           {| requests := ∅; framesDone := 0; probes_left := [];
              inbox_left := [0; 1; -1] |} []).
  cbn. lia.
Defined.

(** The run of that worker: it takes frames 0 and 1, sends two reports and
    leaves the loop at the stop frame with nothing left to receive. *)
Example worker_run :
  let w := {| getRank := 1; getSize := 2; MPI_Wait_status := wait_keeps_status;
              probes := []; inbox := [0; 1; -1] |} in
  let s := {| requests := ∅; framesDone := 0; probes_left := [];
              inbox_left := [0; 1; -1] |} in
  taken 3 [0; 1; -1] = [0; 1] ∧
  starves 3 [0; 1; -1] = false ∧
  sends (frame_loop w sample_report 3 2 s []).2
    = [(0, 0, TAG_FRAME_DONE); (1, 0, TAG_FRAME_DONE)] ∧
  frame_writes (frame_loop w sample_report 3 2 s []).2
    = [(7, frame_time sample_report 0); (9, frame_time sample_report 0);
       (7, frame_time sample_report 1); (9, frame_time sample_report 1)] ∧
  (inbox_left <$> match (frame_loop w sample_report 3 2 s []).1 with
                  | Next s' => Some s'
                  | Stop _ => None
                  end) = Some [] ∧
  (frame_loop w sample_report 3 1 {| requests := ∅; framesDone := 0;
                                    probes_left := []; inbox_left := [0] |}
              []).1 = Stop Blocked.
Proof. cbn zeta. split_and!; by vm_compute. Qed.

(** ** The frame loop of the coordinator *)

Lemma run_frame_coordinator w in_ frame s tr :
  getRank w = 0 → 0 ≤ frame →
  run_frame w in_ frame s tr =
    match process_frame in_ frame tr with
    | (Next _, tr1) =>
        (Next (Continue,
               {| requests := requests s; framesDone := framesDone s + 1;
                  probes_left := probes_left s; inbox_left := inbox_left s |}),
         tr1)
    | (Stop o, tr1) => (Stop o, tr1)
    end.
Proof.
  intros Hrank Hframe. unfold run_frame.
  rewrite bool_decide_eq_false_2 by lia.
  rewrite (bool_decide_eq_true_2 (getRank w = 0)) by done. cbn [negb when].
  destruct (process_frame in_ frame tr) as [[o|[]] tr1] eqn:Hp.
  - by rewrite (run_bind_stop _ _ _ _ _ Hp).
  - by rewrite (run_bind_next _ _ _ _ _ Hp).
Qed.

Lemma coordinator_loop w in_ : getRank w = 0 → ∀ n i s tr r tr',
  0 ≤ i → i + Z.of_nat n ≤ 2 ^ 31 →
  frame_loop w in_ n i s tr = (r, tr') →
  r ≠ Stop Blocked ∧
  ∃ dispatched : list (Z * Z),
    dispatched.*1 `sublist_of` seqZ i (Z.of_nat n) ∧
    sends tr' = sends tr ++ ((λ kd, (kd.1, kd.2, TAG_FRAME)) <$> dispatched) ∧
    (getSize w ≤ 1 → dispatched = []) ∧
    (∀ s', r = Next s' →
       framesDone s' + Z.of_nat (length dispatched) = framesDone s + Z.of_nat n).
Proof.
  intros Hrank. induction n as [|n IH]; intros i s tr r tr' Hi Hmax Hrun.
  { inversion Hrun; subst. split; [done|]. exists []. rewrite app_nil_r.
    split_and!; try done. intros s' Hs. inversion Hs; subst. cbn. lia. }
  cbn [frame_loop] in Hrun. rewrite (seqZ_cons i) by lia.
  replace (Z.pred (Z.of_nat (S n))) with (Z.of_nat n) by lia.
  replace (Z.succ i) with (i + 1) by lia.
  assert (∀ s1 : LoopState, framesDone s1 = framesDone s →
            (loop_body w in_ i s = run_frame w in_ (Machine.to_int i) s1) →
            r ≠ Stop Blocked ∧
            ∃ dispatched : list (Z * Z),
              dispatched.*1 `sublist_of` i :: seqZ (i + 1) (Z.of_nat n) ∧
              sends tr' = sends tr ++ ((λ kd, (kd.1, kd.2, TAG_FRAME)) <$> dispatched) ∧
              (getSize w ≤ 1 → dispatched = []) ∧
              (∀ s', r = Next s' →
                 framesDone s' + Z.of_nat (length dispatched)
                 = framesDone s + Z.of_nat (S n))) as Hlocal.
  { intros s1 Hdone Hbody. rewrite Hbody in Hrun.
    rewrite to_int_small in Hrun by lia.
    destruct (emits_process_frame in_ i tr) as (calls & Htr1 & Hcalls).
    pose proof (process_frame_result in_ i tr) as Hres.
    pose proof (run_frame_coordinator w in_ i s1 tr Hrank Hi) as Hrf.
    destruct (process_frame in_ i tr) as [[o|[]] tr1] eqn:Hp;
      cbn in Htr1, Hres; subst tr1.
    - rewrite (run_bind_stop _ _ _ _ _ Hrf) in Hrun. inversion Hrun; subst.
      destruct Hres as [?|Hres]; [done|]. inversion Hres; subst.
      split; [done|]. exists [].
      rewrite sends_app, (sends_writeFrames _ Hcalls), !app_nil_r.
      split_and!; try done. apply sublist_nil_l.
    - rewrite (run_bind_next _ _ _ _ _ Hrf) in Hrun. cbn beta iota in Hrun.
      apply IH in Hrun as (Hnb & dispatched & Hsub & Hsends & Hone & Hcount);
        [|lia|lia].
      cbn [framesDone] in Hcount.
      split; [done|]. exists dispatched. split_and!; try done.
      + by apply sublist_cons.
      + by rewrite Hsends, sends_app, (sends_writeFrames _ Hcalls), app_nil_r.
      + intros s' Hs. specialize (Hcount _ Hs). lia. }
  unfold loop_body in Hrun |- *. unfold loop_body in Hlocal.
  rewrite (bool_decide_eq_true_2 (getRank w = 0)) in Hrun, Hlocal by done.
  case_bool_decide as Hsize; [|by apply (Hlocal s)].
  destruct (probes_left s) as [|[[frame source]|] rest] eqn:Hprobes;
    [eapply Hlocal; [|reflexivity]; done
    |
    |eapply Hlocal; [|reflexivity]; done].
  clear Hlocal.
  unfold dispatch_next in Hrun. rewrite run_bind_assoc in Hrun.
  rewrite (run_bind_next _ _ _ _ _ (send_frame_run _ _ _ _ tr)) in Hrun.
  rewrite run_ret_bind in Hrun. cbn beta iota in Hrun.
  rewrite to_int_small in Hrun by lia.
  apply IH in Hrun as (Hnb & dispatched & Hsub & Hsends & Hone & Hcount);
    [|lia|lia].
  cbn [framesDone] in Hcount. split; [done|].
  eexists ((i, _) :: dispatched). split_and!.
  - cbn. by apply sublist_skip.
  - rewrite Hsends, sends_app. cbn. by rewrite <- app_assoc.
  - lia.
  - intros s' Hs. specialize (Hcount _ Hs). cbn [length]. lia.
Qed.



(** The run of the witness: index 3 is sent to rank 1, indices 2 and 4 are
    processed by rank 0. *)
Example coordinator_run :
  let w := {| getRank := 0; getSize := 2; MPI_Wait_status := wait_keeps_status;
              probes := [None; Some (0, 1)]; inbox := [] |} in
  let s := {| requests := ∅; framesDone := 0;
              probes_left := [None; Some (0, 1)]; inbox_left := [] |} in
  sends (frame_loop w sample_report 3 2 s []).2 = [(3, 1, TAG_FRAME)] ∧
  framesDone <$> (match (frame_loop w sample_report 3 2 s []).1 with
                  | Next s' => Some s' | Stop _ => None end) = Some 2.
Proof. vm_compute. split; reflexivity. Qed.

(** ** The order of the calls *)

Lemma no_exit_ret {A} (a : A) : no_exit (mret a).
Proof. done. Qed.

Lemma no_exit_call c : no_exit (call c).
Proof. done. Qed.

Lemma no_exit_defined {A} (x : option A) : no_exit (defined x).
Proof. by destruct x. Qed.

Lemma no_exit_blocked {A} : no_exit (@stop A Blocked).
Proof. done. Qed.

Lemma no_exit_when b m : no_exit m → no_exit (when b m).
Proof. by destruct b. Qed.

Lemma no_exit_bind {A B} (m : Run A) (f : A → Run B) :
  no_exit m → (∀ a, no_exit (f a)) → no_exit (m ≫= f).
Proof.
  intros Hm Hf tr code. unfold mbind, Run_bind.
  specialize (Hm tr). destruct (m tr) as [[o|a] tr1]; cbn in *.
  - intros Heq. inversion Heq; subst. by apply (Hm code).
  - apply Hf.
Qed.

#[local] Hint Resolve no_exit_ret no_exit_call no_exit_defined no_exit_blocked
  no_exit_when : emits.
#[local] Hint Extern 2 (no_exit (_ ≫= _)) => apply no_exit_bind; [|intros] : emits.

Lemma emits_send_frames sends_ reqs : emits is_frame_call (send_frames sends_ reqs).
Proof.
  revert reqs. induction sends_ as [|[f d] rest IH]; intros reqs; cbn;
    unfold send_frame; auto 10 with emits.
Qed.

Lemma no_exit_send_frames sends_ reqs : no_exit (send_frames sends_ reqs).
Proof.
  revert reqs. induction sends_ as [|[f d] rest IH]; intros reqs; cbn;
    unfold send_frame; auto 10 with emits.
Qed.

Lemma no_exit_process_frame in_ frame : no_exit (process_frame in_ frame).
Proof.
  intros tr code. by destruct (process_frame_result in_ frame tr) as [->| ->].
Qed.

Lemma emits_frame_call_process_frame in_ frame :
  emits is_frame_call (process_frame in_ frame).
Proof.
  eapply emits_mono; [|apply emits_process_frame]. by intros [].
Qed.

Lemma emits_loop_body w in_ i s : emits is_frame_call (loop_body w in_ i s).
Proof.
  unfold loop_body, run_frame, dispatch_next, send_frame.
  repeat case_bool_decide; repeat case_match;
    auto 10 using emits_frame_call_process_frame with emits.
Qed.

Lemma no_exit_loop_body w in_ i s : no_exit (loop_body w in_ i s).
Proof.
  unfold loop_body, run_frame, dispatch_next, send_frame.
  repeat case_bool_decide; repeat case_match;
    auto 10 using no_exit_process_frame with emits.
Qed.

Lemma emits_frame_loop w in_ n : ∀ i s, emits is_frame_call (frame_loop w in_ n i s).
Proof.
  induction n as [|n IH]; intros i s; cbn; [auto with emits|].
  apply emits_bind; [apply emits_loop_body|]. intros [[] s']; auto with emits.
Qed.

Lemma no_exit_frame_loop w in_ n : ∀ i s, no_exit (frame_loop w in_ n i s).
Proof.
  induction n as [|n IH]; intros i s; cbn; [auto with emits|].
  apply no_exit_bind; [apply no_exit_loop_body|]. intros [[] s']; auto with emits.
Qed.

(** The conversion makes frame calls only, followed by [flush] when it
    succeeds; when it does not succeed it is undefined or blocked, and
    [flush] was not called. *)
Lemma convert_calls w in_ n tr :
  ∃ body,
    Forall is_frame_call body ∧
    ((∃ done, convert w in_ n tr = (Next done, tr ++ body ++ [flush])) ∨
     (∃ o, convert w in_ n tr = (Stop o, tr ++ body) ∧ ∀ code, o ≠ Exit code)).
Proof.
  set (before_flush :=
         (if bool_decide (getRank w = 0)
          then send_frames (prequeued (getSize w) (preQueue n)) ∅
          else mret ∅) ≫= λ queued,
         frame_loop w in_ (Z.to_nat (n - startFrame (getSize w) n))
                    (startFrame (getSize w) n)
                    {| requests := queued; framesDone := 0;
                       probes_left := probes w; inbox_left := inbox w |} ≫= λ s,
         (if bool_decide (getRank w = 0)
          then send_frames (stop_frames (getSize w)) (requests s)
          else mret (requests s)) ≫= λ _, mret s).
  assert (convert w in_ n tr
          = (before_flush ≫= λ s, call flush ;; mret (framesDone s)) tr) as ->.
  { unfold convert, before_flush. cbv zeta.
    rewrite run_bind_assoc. apply run_bind_ext. intros queued tr1.
    rewrite run_bind_assoc. apply run_bind_ext. intros s tr2.
    rewrite run_bind_assoc. apply run_bind_ext. intros _ tr3.
    by rewrite run_ret_bind. }
  assert (emits is_frame_call before_flush) as Hemits.
  { unfold before_flush. apply emits_bind.
    - case_bool_decide; auto using emits_send_frames with emits.
    - intros queued. apply emits_bind; [apply emits_frame_loop|].
      intros s. apply emits_bind; [|auto with emits].
      case_bool_decide; auto using emits_send_frames with emits. }
  assert (no_exit before_flush) as Hno.
  { unfold before_flush. apply no_exit_bind.
    - case_bool_decide; auto using no_exit_send_frames with emits.
    - intros queued. apply no_exit_bind; [apply no_exit_frame_loop|].
      intros s. apply no_exit_bind; [|auto with emits].
      case_bool_decide; auto using no_exit_send_frames with emits. }
  destruct (Hemits tr) as (body & Htr & Hbody). specialize (Hno tr).
  exists body. split; [done|].
  destruct (before_flush tr) as [[o|s] tr1] eqn:Hrun; cbn in Htr, Hno; subst tr1.
  - right. exists o. rewrite (run_bind_stop _ _ _ _ _ Hrun). split; [done|].
    intros code ->. by apply (Hno code).
  - left. exists (framesDone s). rewrite (run_bind_next _ _ _ _ _ Hrun).
    rewrite run_call_bind. unfold mret, Run_ret. by rewrite <- app_assoc.
Qed.

Lemma emits_layout_loop first last counts gids : ∀ index,
  emits is_gid_call (layout_loop first last counts gids index).
Proof.
  induction gids as [|gid gids IH]; intros index; cbn; [auto with emits|].
  apply emits_bind; [|auto].
  destruct (_ || _); auto with emits.
Qed.

Lemma emits_write_layout rank nRanks in_ :
  emits is_gid_call (write_layout rank nRanks in_).
Proof. unfold write_layout. auto 10 using emits_layout_loop with emits. Qed.

Lemma no_exit_layout_loop first last counts gids : ∀ index,
  no_exit (layout_loop first last counts gids index).
Proof.
  induction gids as [|gid gids IH]; intros index; cbn; [auto with emits|].
  apply no_exit_bind; [|auto].
  destruct (_ || _); auto with emits.
Qed.

Lemma no_exit_write_layout rank nRanks in_ :
  no_exit (write_layout rank nRanks in_).
Proof. unfold write_layout. auto 10 using no_exit_layout_loop with emits. Qed.

Lemma silent_compare vm in_ result start end_ step fuel o :
  silent (when (opt_compare vm) (verify in_ result start end_ step fuel)
          ≫= λ _, @stop unit o).
Proof.
  apply emits_silent. apply emits_bind; [|auto with emits].
  apply emits_when. unfold verify.
  auto 20 using emits_requireEqualCollections, emits_verify_offsets,
    emits_verify_frames with emits.
Qed.

(** The order of the calls of [main] when the options ask for a conversion
    (no [--help], [--version] or [--dump], an input given), whatever the
    outcome: first [writeHeader] with the start, the clamped end and the
    step of the input and its units, then layout calls ([addGID],
    [writeCompartments]), then frame calls ([writeFrame], [MPI_Isend]), then
    at most one [flush], and nothing after it. When [main] returns
    [EXIT_SUCCESS], [flush] is the last call. *)
Theorem main_call_order
    (vm : Options) (in_ result : CompartmentReport) (w : World) (fuel : nat) :
  opt_help vm = false → opt_version vm = false →
  String.eqb (opt_input vm) "" = false → opt_dump vm = false →
  ∃ layout body tail,
    (main vm in_ result w fuel).2 =
      writeHeader (getStartTime in_) (clamped_end vm in_) (getTimestep in_)
                  (getDataUnit in_) (getTimeUnit in_)
        :: layout ++ body ++ tail ∧
    Forall is_gid_call layout ∧
    Forall is_frame_call body ∧
    (tail = [] ∨ tail = [flush]) ∧
    ((main vm in_ result w fuel).1 = Exit EXIT_SUCCESS → tail = [flush]).
Proof.
  intros Hh Hv Hi Hd. unfold main, main_run. rewrite Hh, Hv, Hi, Hd.
  unfold setup. rewrite run_bind_assoc, run_call_bind. cbn [app].
  set (header := writeHeader _ _ _ _ _).
  rewrite run_bind_assoc.
  destruct (emits_write_layout (getRank w) (getSize w) in_ [header])
    as (layout & Htr & Hlayout).
  pose proof (no_exit_write_layout (getRank w) (getSize w) in_ [header]) as Hno.
  destruct (write_layout (getRank w) (getSize w) in_ [header])
    as [[o|[]] tr1] eqn:Hlay; cbn in Htr, Hno; subst tr1.
  { rewrite (run_bind_stop _ _ _ _ _ Hlay).
    exists layout, [], []. rewrite !app_nil_r. split_and!; auto.
    cbn. intros ->. by destruct (Hno EXIT_SUCCESS). }
  rewrite (run_bind_next _ _ _ _ _ Hlay).
  destruct (nFrames _ _ _) as [n|]; cbn [defined].
  2:{ exists layout, [], []. rewrite !app_nil_r. split_and!; auto. done. }
  rewrite run_ret_bind. case_bool_decide.
  { exists layout, [], []. rewrite !app_nil_r. split_and!; auto. done. }
  unfold conversion.
  destruct (convert_calls w in_ n ([header] ++ layout))
    as (body & Hbody & [[done Hconv]|(o & Hconv & Ho)]).
  - rewrite (run_bind_next _ _ _ _ _ Hconv).
    pose proof (silent_compare vm in_ result (getStartTime in_)
                  (clamped_end vm in_) (getTimestep in_) fuel
                  (Exit EXIT_SUCCESS) (([header] ++ layout) ++ body ++ [flush]))
      as Hsilent.
    destruct ((when (opt_compare vm) _ ≫= _) _) as [[o|[]] tr2];
      cbn in Hsilent; subst tr2; exists layout, body, [flush];
      cbn [app snd]; split_and!; auto.
  - rewrite (run_bind_stop _ _ _ _ _ Hconv).
    exists layout, body, []. rewrite app_nil_r. cbn [app snd].
    split_and!; auto. cbn. intros ->. by destruct (Ho EXIT_SUCCESS).
Qed.

(** Rank 0 of 2 converts the sample report. *)
Lemma main_call_order_witness :
  let vm := command_line None true in
  let w := {| getRank := 0; getSize := 2; MPI_Wait_status := wait_keeps_status;
              probes := []; inbox := [] |} in
  ∃ layout body tail,
    (main vm sample_report sample_report w 5).2 =
      writeHeader (getStartTime sample_report) (clamped_end vm sample_report)
                  (getTimestep sample_report) (getDataUnit sample_report)
                  (getTimeUnit sample_report)
        :: layout ++ body ++ tail ∧
    Forall is_gid_call layout ∧
    Forall is_frame_call body ∧
    (tail = [] ∨ tail = [flush]) ∧
    ((main vm sample_report sample_report w 5).1 = Exit EXIT_SUCCESS →
     tail = [flush]).
Proof.
  apply (main_call_order (command_line None true) sample_report sample_report
           {| getRank := 0; getSize := 2; MPI_Wait_status := wait_keeps_status;
              probes := []; inbox := [] |} 5); reflexivity.
Defined.

(** ** Options that ask for no conversion *)

(** With [--help], [--version], an empty input URI or [--dump], in this
    order of precedence, [main] returns without a single call on the writer
    or on MPI: [EXIT_FAILURE] for an empty input without [--help] and
    [--version], [EXIT_SUCCESS] otherwise. [--compare] and [--maxFrames]
    play no part. *)
Theorem main_without_conversion
    (vm : Options) (in_ result : CompartmentReport) (w : World) (fuel : nat) :
  opt_help vm || opt_version vm || String.eqb (opt_input vm) "" || opt_dump vm
    = true →
  main vm in_ result w fuel =
    (Exit (if opt_help vm || opt_version vm then EXIT_SUCCESS
           else if String.eqb (opt_input vm) "" then EXIT_FAILURE
           else EXIT_SUCCESS),
     []).
Proof.
  unfold main, main_run.
  destruct (opt_help vm), (opt_version vm), (String.eqb (opt_input vm) ""),
    (opt_dump vm); done.
Qed.

(** [--dump] with [--compare] and [--maxFrames 4]. *)
Lemma main_without_conversion_witness :
  let vm := {| opt_help := false; opt_version := false; opt_input := "in.bbp";
               opt_output := None; opt_maxFrames := Some 4; opt_compare := true;
               opt_dump := true |} in
  main vm sample_report sample_report single_process 5 =
    (Exit (if opt_help vm || opt_version vm then EXIT_SUCCESS
           else if String.eqb (opt_input vm) "" then EXIT_FAILURE
           else EXIT_SUCCESS),
     []).
Proof.
  apply (main_without_conversion
           {| opt_help := false; opt_version := false; opt_input := "in.bbp";
              opt_output := None; opt_maxFrames := Some 4; opt_compare := true;
              opt_dump := true |} sample_report sample_report single_process 5).
  reflexivity.
Defined.

(** ** Time range: edge cases *)

(** A quotient by zero is an infinity or not a number: it has no [size_t]. *)
Lemma to_size_t_div_zero (a : float) (s : bool) :
  Float32.to_size_t (Float32.div a (S754_zero s)) = None.
Proof. by destruct a. Qed.

Lemma write_layout_stop rank nRanks in_ tr o tr' :
  write_layout rank nRanks in_ tr = (Stop o, tr') → o = Undefined.
Proof.
  unfold write_layout.
  destruct (startGID _ _) as [first|]; cbn [defined];
    [rewrite run_ret_bind|by inversion 1].
  destruct (endGID _ _) as [last|]; cbn [defined];
    [rewrite run_ret_bind|by inversion 1].
  generalize 0%nat as index. revert tr.
  induction (getGIDs in_) as [|gid gids IH]; intros tr index; [done|].
  cbn [layout_loop]. destruct (_ || _).
  - rewrite run_call_bind. apply IH.
  - destruct (getCompartmentCounts in_ !! index); cbn [defined].
    + rewrite run_bind_assoc, run_ret_bind, run_call_bind. apply IH.
    + by inversion 1.
Qed.

(** A report whose timestep is zero: the frame count [(end - start) / step]
    is the conversion of an infinity or of a NaN to [size_t]. A run that
    asks for a conversion is undefined from there on, after the header and
    layout calls; no frame is written and [flush] is not called. *)
Theorem zero_timestep_is_undefined
    (vm : Options) (in_ result : CompartmentReport) (w : World) (fuel : nat)
    (s : bool) :
  opt_help vm = false → opt_version vm = false →
  String.eqb (opt_input vm) "" = false → opt_dump vm = false →
  getTimestep in_ = S754_zero s →
  (main vm in_ result w fuel).1 = Undefined ∧
  ∃ layout,
    (main vm in_ result w fuel).2 =
      writeHeader (getStartTime in_) (clamped_end vm in_) (getTimestep in_)
                  (getDataUnit in_) (getTimeUnit in_) :: layout ∧
    Forall is_gid_call layout.
Proof.
  intros Hh Hv Hi Hd Hstep. unfold main, main_run. rewrite Hh, Hv, Hi, Hd.
  unfold setup. rewrite run_bind_assoc, run_call_bind. cbn [app].
  set (header := writeHeader _ _ _ _ _).
  rewrite run_bind_assoc.
  destruct (emits_write_layout (getRank w) (getSize w) in_ [header])
    as (layout & Htr & Hlayout).
  destruct (write_layout (getRank w) (getSize w) in_ [header])
    as [[o|[]] tr1] eqn:Hlay; cbn in Htr; subst tr1.
  - rewrite (run_bind_stop _ _ _ _ _ Hlay).
    rewrite (write_layout_stop _ _ _ _ _ _ Hlay). split; [done|]. by exists layout.
  - rewrite (run_bind_next _ _ _ _ _ Hlay). unfold nFrames.
    rewrite Hstep, to_size_t_div_zero. split; [done|]. by exists layout.
Qed.

(** The sample report with a timestep of zero. *)
Lemma zero_timestep_is_undefined_witness :
  let in_ := {|
    getStartTime := Float32.of_Z 0; getEndTime := Float32.of_Z 3;
    getTimestep := S754_zero false;
    getDataUnit := "mV"; getTimeUnit := "ms";
    getGIDs := getGIDs sample_report; getOffsets := getOffsets sample_report;
    getCompartmentCounts := getCompartmentCounts sample_report;
    getFrameSize := 4; loadFrame := loadFrame sample_report |} in
  let vm := command_line None false in
  (main vm in_ in_ single_process 5).1 = Undefined ∧
  ∃ layout,
    (main vm in_ in_ single_process 5).2 =
      writeHeader (getStartTime in_) (clamped_end vm in_) (getTimestep in_)
                  (getDataUnit in_) (getTimeUnit in_) :: layout ∧
    Forall is_gid_call layout.
Proof.
  apply (zero_timestep_is_undefined (command_line None false)
           {| getStartTime := Float32.of_Z 0; getEndTime := Float32.of_Z 3;
              getTimestep := S754_zero false;
              getDataUnit := "mV"; getTimeUnit := "ms";
              getGIDs := getGIDs sample_report;
              getOffsets := getOffsets sample_report;
              getCompartmentCounts := getCompartmentCounts sample_report;
              getFrameSize := 4; loadFrame := loadFrame sample_report |}
           _ single_process 5 false); reflexivity.
Defined.

Lemma ltb_irrefl (a : float) : Float32.ltb a a = false.
Proof.
  unfold Float32.ltb, SFltb.
  destruct a as [[]|[]| |[] m e]; cbn; try done;
    by rewrite Z.compare_refl, Pos.compare_cont_refl.
Qed.

Lemma ltb_asym (a b : float) : Float32.ltb a b = true → Float32.ltb b a = false.
Proof.
  unfold Float32.ltb, SFltb.
  destruct a as [[]|[]| |[] ma ea], b as [[]|[]| |[] mb eb]; cbn; try done.
  all: rewrite (Z.compare_antisym ea eb).
  all: destruct (ea ?= eb) eqn:He; cbn; try done.
  all: change (Pos.compare_cont Eq mb ma) with (Pos.compare mb ma).
  all: change (Pos.compare_cont Eq ma mb) with (Pos.compare ma mb).
  all: rewrite (Pos.compare_antisym ma mb).
  all: by destruct (Pos.compare ma mb).
Qed.

(** [end = std::min( end, maxEnd )]: the end time used for header, frame
    count and comparison is either the end time of the input or
    [start + maxFrames * step], and the end time of the input is never
    below it; a [maxEnd] that is not a number leaves the end time of the
    input. *)
Theorem clamped_end_not_after_end (vm : Options) (in_ : CompartmentReport) :
  let bound := maxEnd (getStartTime in_) (getTimestep in_) (maxFrames vm) in
  (clamped_end vm in_ = getEndTime in_ ∨ clamped_end vm in_ = bound) ∧
  Float32.ltb (getEndTime in_) (clamped_end vm in_) = false ∧
  Float32.ltb bound (clamped_end vm in_) = false ∧
  (bound = S754_nan → clamped_end vm in_ = getEndTime in_).
Proof.
  intros bound. unfold clamped_end, Float32.min. fold bound.
  destruct (Float32.ltb bound (getEndTime in_)) eqn:Hlt.
  - split_and!; [by right|by apply ltb_asym|apply ltb_irrefl|].
    intros Hnan. by rewrite Hnan in Hlt.
  - split_and!; [by left|apply ltb_irrefl|done|done].
Qed.

(** ** The ranges of consecutive ranks *)

(** The range of rank 0 starts at index 0 for every finite [range], and the
    range of a rank starts where the range of the rank before it ends: no
    index is in the ranges of two consecutive ranks and none lies between
    them. *)
Theorem ranges_start_at_zero_and_are_adjacent
    (rank : Z) (r : float) (first last first' last' : Z) :
  Float32.trunc r ≠ None →
  0 ≤ rank < 2 ^ 31 - 1 →
  startGID rank r = Some first → endGID rank r = Some last →
  startGID (rank + 1) r = Some first' → endGID (rank + 1) r = Some last' →
  startGID 0 r = Some 0 ∧
  first' = last ∧
  ∀ index : Z, ¬ (first ≤ index < last ∧ first' ≤ index < last').
Proof.
  intros Hfin Hrank Hfirst Hlast Hfirst' Hlast'. split_and!.
  - unfold startGID. by destruct r as [[]|[]| |[] m e].
  - rewrite startGID_succ in Hfirst' by lia. congruence.
  - rewrite startGID_succ in Hfirst' by lia. intros index. 
    assert (first' = last) by congruence. lia.
Qed.

(** Ranks 0 and 1 of 2 with 3 GIDs. *)
Lemma ranges_start_at_zero_and_are_adjacent_witness :
  startGID 0 (range 3 2) = Some 0 ∧
  1 = 1 ∧
  ∀ index : Z, ¬ (0 ≤ index < 1 ∧ 1 ≤ index < 3).
Proof.
  apply (ranges_start_at_zero_and_are_adjacent 0 (range 3 2) 0 1 1 3);
    [vm_compute; intros H; discriminate H | lia
    | reflexivity | reflexivity | reflexivity | reflexivity].
Defined.

(** ** The messages of the coordinator *)

Lemma sends_frame_sends (l : list (Z * Z)) :
  sends ((λ fd, MPI_Isend fd.1 fd.2 TAG_FRAME) <$> l)
    = (λ fd, (fd.1, fd.2, TAG_FRAME)) <$> l.
Proof. induction l as [|[f d] l IH]; [done|]. cbn. by f_equal. Qed.

Lemma NoDup_stop_frames nRanks : NoDup (stop_frames nRanks).*1.
Proof.
  unfold stop_frames. rewrite <- list_fmap_compose.
  apply NoDup_fmap_2; [|apply NoDup_seqZ]. intros i j. cbn. lia.
Qed.

(** All messages of rank 0 in a conversion that succeeds, for a frame count
    below [2^31] and [S = (N-1) * Q] an [int], with
    [Q = max( 2, nFrames / 512 )]: first the queued frames [0, S) in
    ascending order, frame [f] to rank [f / Q + 1]; then loop indices out of
    [S, nFrames), ascending and each at most once; then the stop frame [-i]
    to every rank [i] in [1, N). No frame is sent twice, and the indices not
    sent are those rank 0 processed itself. *)
Theorem coordinator_messages
    (w : World) (in_ : CompartmentReport) (n done : Z) (tr tr' : list Call) :
  getRank w = 0 → 1 ≤ getSize w → 0 ≤ n < 2 ^ 31 →
  (getSize w - 1) * Z.max 2 (n / 512) < 2 ^ 31 →
  convert w in_ n tr = (Next done, tr') →
  let Q := Z.max 2 (n / 512) in
  let S := (getSize w - 1) * Q in
  ∃ dispatched : list (Z * Z),
    dispatched.*1 `sublist_of` seqZ S (n - S) ∧
    sends tr' =
      sends tr
      ++ ((λ f, (f, f / Q + 1, TAG_FRAME)) <$> seqZ 0 S)
      ++ ((λ kd, (kd.1, kd.2, TAG_FRAME)) <$> dispatched)
      ++ ((λ i, (- i, i, TAG_FRAME)) <$> seqZ 1 (getSize w - 1)) ∧
    done + Z.of_nat (length dispatched) = Z.max 0 (n - S).
Proof.
  intros Hrank HN Hn Hint Hconv Q S.
  unfold convert in Hconv. cbv zeta in Hconv.
  rewrite Hrank, (bool_decide_eq_true_2 (0 = 0)) in Hconv by done.
  assert (n < 2 ^ 40) by lia.
  rewrite preQueue_small, startFrame_small in Hconv by lia.
  fold Q S in Hconv.
  assert (0 ≤ S) by (apply Z.mul_nonneg_nonneg; lia).
  rewrite prequeued_frames in Hconv by (unfold S, Q in *; lia).
  fold S in Hconv.
  destruct (send_frames_run ((λ f, (f, f / Q + 1)) <$> seqZ 0 S) ∅ tr)
    as (queued & Hq & _ & _).
  { rewrite <- list_fmap_compose. cbn. rewrite list_fmap_id. apply NoDup_seqZ. }
  rewrite (run_bind_next _ _ _ _ _ Hq) in Hconv.
  set (tr1 := tr ++ _) in Hconv, Hq.
  destruct (frame_loop w in_ (Z.to_nat (n - S)) S
              {| requests := queued; framesDone := 0;
                 probes_left := probes w; inbox_left := inbox w |} tr1)
    as [[o|s] tr2] eqn:Hloop.
  { by rewrite (run_bind_stop _ _ _ _ _ Hloop) in Hconv. }
  rewrite (run_bind_next _ _ _ _ _ Hloop) in Hconv.
  apply (coordinator_loop w in_ Hrank) in Hloop
    as (_ & dispatched & Hsub & Hsends & _ & Hcount); [|lia|lia].
  specialize (Hcount _ eq_refl). cbn [framesDone] in Hcount.
  destruct (send_frames_run (stop_frames (getSize w)) (requests s) tr2
              (NoDup_stop_frames _)) as (reqs' & Hstop & _ & _).
  rewrite (run_bind_next _ _ _ _ _ Hstop) in Hconv.
  rewrite run_call_bind in Hconv. inversion Hconv; subst done tr'. clear Hconv.
  exists dispatched. split_and!.
  - destruct (decide (0 ≤ n - S)); [by rewrite Z2Nat.id in Hsub by lia|].
    rewrite (seqZ_nil S (n - S)) by lia. by rewrite seqZ_nil in Hsub by lia.
  - rewrite !sends_app, Hsends. unfold tr1.
    rewrite !sends_app, !sends_frame_sends, <- !list_fmap_compose.
    unfold stop_frames. rewrite <- list_fmap_compose. cbn.
    by rewrite app_nil_r, <- !app_assoc.
  - lia.
Qed.

(** Rank 0 of 2 converts the 3 frames of the sample report with no
    completion pending: frames 0 and 1 are queued for rank 1, frame 2 is
    processed by rank 0, rank 1 gets the stop frame. *)
Lemma coordinator_messages_witness :
  let w := {| getRank := 0; getSize := 2; MPI_Wait_status := wait_keeps_status;
              probes := []; inbox := [] |} in
  let tr' := (convert w sample_report 3 []).2 in
  let Q := Z.max 2 (3 / 512) in
  let S := (getSize w - 1) * Q in
  ∃ dispatched : list (Z * Z),
    dispatched.*1 `sublist_of` seqZ S (3 - S) ∧
    sends tr' =
      sends []
      ++ ((λ f, (f, f / Q + 1, TAG_FRAME)) <$> seqZ 0 S)
      ++ ((λ kd, (kd.1, kd.2, TAG_FRAME)) <$> dispatched)
      ++ ((λ i, (- i, i, TAG_FRAME)) <$> seqZ 1 (getSize w - 1)) ∧
    1 + Z.of_nat (length dispatched) = Z.max 0 (3 - S).
Proof.
  apply (coordinator_messages
           {| getRank := 0; getSize := 2; MPI_Wait_status := wait_keeps_status;
              probes := []; inbox := [] |} sample_report 3 1 []);
    [reflexivity | cbn; lia | lia | reflexivity | reflexivity].
Defined.

(** ** Witnesses for the single process and for the source of a completion *)

(** The 3 frames of the sample report in a single process. *)
Lemma single_process_converts_all_frames_witness :
  convert single_process sample_report 3 [] =
    match process_frames sample_report (seqZ 0 3) [] with
    | (Next _, tr') => (Next 3, tr' ++ [flush])
    | (Stop o, tr') => (Stop o, tr')
    end.
Proof.
  apply (single_process_converts_all_frames single_process sample_report 3 []);
    [reflexivity | reflexivity | lia].
Defined.

(** Rank 1 reports frame 0 at loop index 2, with an [MPI_Wait] that leaves
    the status as it found it. *)
Lemma dispatch_next_to_source_witness :
  let w := {| getRank := 0; getSize := 2; MPI_Wait_status := wait_keeps_status;
              probes := [Some (0, 1)]; inbox := [] |} in
  ∃ reqs' : Requests,
    dispatch_next w 2 0 1 ∅ [] =
      (Next reqs', [] ++ [MPI_Isend (Machine.to_int 2) 1 TAG_FRAME]) ∧
    (0 ≠ Machine.to_int 2 → reqs' !! 0 = None) ∧
    req_dest <$> reqs' !! Machine.to_int 2 = Some 1.
Proof.
  apply (dispatch_next_to_source
           {| getRank := 0; getSize := 2; MPI_Wait_status := wait_keeps_status;
              probes := [Some (0, 1)]; inbox := [] |} 2 0 1 ∅ []).
  reflexivity.
Defined.
